(** * Scribbles: point paths, Bezier chaining and point transforms

    A shallow embedding of [scribbles/points.py] and [scribbles/core.py].

    Numbers.  The Python code computes with [int] and [float] values; the
    embedding idealises both as real numbers ([R]), so that [sqrt], [cos]
    and [sin] are the mathematical functions and addition is associative.
    Counts and indices ([n_steps], list positions) stay integers.  Where
    rounding decides what the code returns, the module [Binary64] has the
    same code over IEEE 754 binary64 numbers, which is what a Python
    [float] is.

    Failure.  A Python exception is a value of [exn]; a function that can
    raise returns an [outcome].  The unbounded [while] loops of the
    generators take a bound on the number of iterations, and report
    [OutOfFuel] when the bound is hit with the loop condition still true. *)

From Stdlib Require Import Reals Lra Lia ZArith Bool String List.
From Stdlib Require PrimFloat.
Import ListNotations.

Local Open Scope R_scope.

(** ** Exceptions and outcomes *)

Inductive exn : Type :=
| ValueError (msg : string)
| IndexError
| ZeroDivisionError
| TypeError
| AttributeError.

Inductive outcome (A : Type) : Type :=
| Ok (a : A)
| Raise (e : exn)
| OutOfFuel.

Arguments Ok {A} a.
Arguments Raise {A} e.
Arguments OutOfFuel {A}.

Definition bind {A B : Type} (m : outcome A) (k : A -> outcome B) : outcome B :=
  match m with
  | Ok a => k a
  | Raise e => Raise e
  | OutOfFuel => OutOfFuel
  end.

Notation "x <- m ;; k" := (bind m (fun x => k))
  (at level 61, m at next level, right associativity).
Notation "' pat <- m ;; k" := (bind m (fun x => match x with pat => k end))
  (at level 61, pat pattern, m at next level, right associativity).

(** ** Comparisons on numbers, as booleans *)

Definition Rltb (x y : R) : bool := if Rlt_dec x y then true else false.
Definition Rleb (x y : R) : bool := if Rle_dec x y then true else false.

(** ** Points *)

Definition Point : Type := (R * R)%type.

(** [range(lo, hi)] over the integers. *)
Definition range (lo hi : Z) : list Z :=
  map (fun k => (lo + Z.of_nat k)%Z) (seq 0 (Z.to_nat (hi - lo))).

(** * scribbles/points.py *)

Module Points.

(** [distance(point_1, point_2)] *)
Definition distance (point_1 point_2 : Point) : R :=
  sqrt ((fst point_2 - fst point_1) ^ 2 + (snd point_2 - snd point_1) ^ 2).

(** The [for point_2 in points[1:]] loop of [total_length], with the
    running [total] and the previous point [point_1]. *)
Fixpoint total_length_loop (total : R) (point_1 : Point) (rest : list Point) : R :=
  match rest with
  | [] => total
  | point_2 :: rest' =>
      total_length_loop (total + distance point_1 point_2) point_2 rest'
  end.

(** [total_length(points)]: [points[0]] raises [IndexError] on an empty
    list, before the loop is reached. *)
Definition total_length (points : list Point) : outcome R :=
  match points with
  | [] => Raise IndexError
  | point_1 :: rest => Ok (total_length_loop 0 point_1 rest)
  end.

(** [max_distance(points, origin)], a [reduce] from the initial value 0. *)
Definition max_distance (points : list Point) (origin : Point) : R :=
  fold_left (fun d pt => Rmax d (distance origin pt)) points 0.

(** *** Objects and the heap

    [PointTransformer] builders mutate the receiver ([self._fns.append])
    and return it, and [transform] is handed a list object.  Objects live
    in a heap, addressed by position; allocation appends, so an address
    once allocated keeps its meaning. *)

Definition addr : Type := nat.

Inductive object : Type :=
| Transformer (_fns : list (Point -> Point))
| PointList (items : list Point).

Definition heap : Type := list object.

Definition alloc (o : object) (h : heap) : addr * heap :=
  (length h, h ++ [o]).

Fixpoint store (a : addr) (o : object) (h : heap) : heap :=
  match h, a with
  | [], _ => []
  | _ :: h', O => o :: h'
  | x :: h', S a' => x :: store a' o h'
  end.

(** [reduce(function, sequence)] without an initial value: a [TypeError]
    on an empty sequence. *)
Definition reduce {A : Type} (f : A -> A -> A) (l : list A) : outcome A :=
  match l with
  | [] => Raise TypeError
  | x :: xs => Ok (fold_left f xs x)
  end.

(** *** class PointTransformer *)

Definition RADIANS : R := PI / 180.

(** [PointTransformer()]: [__init__] sets [_fns] to the identity alone. *)
Definition PointTransformer (h : heap) : addr * heap :=
  alloc (Transformer [fun pt => pt]) h.

(** [self._apply(fn)]: appends to [self._fns] in place, returns [self]. *)
Definition _apply (self : addr) (fn : Point -> Point) (h : heap)
  : outcome (addr * heap) :=
  match nth_error h self with
  | Some (Transformer _fns) => Ok (self, store self (Transformer (_fns ++ [fn])) h)
  | _ => Raise AttributeError
  end.

Definition rotate (self : addr) (angle : R) : heap -> outcome (addr * heap) :=
  let radians := RADIANS * angle in
  _apply self (fun pt => (fst pt * cos radians + snd pt * sin radians,
                          snd pt * cos radians - fst pt * sin radians)).

Definition translate (self : addr) (x y : R) : heap -> outcome (addr * heap) :=
  _apply self (fun pt => (fst pt + x, snd pt + y)).

Definition scale (self : addr) (x y : R) : heap -> outcome (addr * heap) :=
  _apply self (fun pt => (fst pt * x, snd pt * y)).

Definition mirror_horizontal (self : addr) : heap -> outcome (addr * heap) :=
  _apply self (fun pt => (- fst pt, snd pt)).

Definition mirror_vertical (self : addr) : heap -> outcome (addr * heap) :=
  _apply self (fun pt => (fst pt, - snd pt)).

Definition limit (self : addr) (x_max x_min y_max y_min : R)
  : heap -> outcome (addr * heap) :=
  _apply self (fun pt => (Rmin (Rmax (fst pt) x_min) x_max,
                          Rmin (Rmax (snd pt) y_min) y_max)).

(** [composition = lambda fn1, fn2: lambda pt: fn2(fn1(pt))] *)
Definition composition (fn1 fn2 : Point -> Point) : Point -> Point :=
  fun pt => fn2 (fn1 pt).

(** [self.transform(points)]: the list comprehension builds a new list
    object; neither [self._fns] nor [points] is written. *)
Definition transform (self points : addr) (h : heap) : outcome (addr * heap) :=
  match nth_error h self, nth_error h points with
  | Some (Transformer _fns), Some (PointList items) =>
      transform_fn <- reduce composition _fns ;;
      Ok (alloc (PointList (map transform_fn items)) h)
  | Some (Transformer _), _ => Raise TypeError
  | _, _ => Raise AttributeError
  end.

End Points.

(** * scribbles/core.py *)

Module Core.

Import Points.

(** The attributes [__init__] stores on a scribble object.  The step
    functions are pure functions of the current radius and angle. *)
Record Scribble : Type := {
  origin : Point;
  radius_modifier_fn : R -> R;
  angle_modifier_fn : R -> R
}.

(** Python's [points[-1]] and [points.pop()] on a list that the caller has
    checked to be non-empty. *)
Definition last_point (points : list Point) : Point := last points (0, 0).

(** Python's [l[:k]]: a negative [k] counts from the end. *)
Definition slice_to {A : Type} (l : list A) (k : Z) : list A :=
  if (k <? 0)%Z then firstn (length l - Z.to_nat (- k)) l
  else firstn (Z.to_nat k) l.

(** ** class LinearScribble *)

Module LinearScribble.

Definition RADIANS : R := PI / 180.

Definition _get_new_point (self : Scribble) (angle radius : R) : Point * R * R :=
  let radians := angle * RADIANS in
  let x := radius * cos radians + fst (origin self) in
  let y := radius * sin radians + snd (origin self) in
  let new_point := (x, y) in
  let new_radius := radius_modifier_fn self radius in
  let new_angle := angle_modifier_fn self angle in
  (new_point, new_angle, new_radius).

(** The [while length < max_length] loop of [get_points]; [fuel] bounds
    the number of passes. *)
Fixpoint get_points_while (self : Scribble) (max_length : R) (fuel : nat)
    (points : list Point) (length radius angle : R) : outcome (list Point) :=
  if Rltb length max_length then
    match fuel with
    | O => OutOfFuel
    | S fuel' =>
        let '(new_point, angle, radius) := _get_new_point self angle radius in
        if (0 <? List.length points)%nat then
          let new_length := length + distance (last_point points) new_point in
          if Rltb max_length new_length then Ok points
          else get_points_while self max_length fuel'
                 (points ++ [new_point]) new_length radius angle
        else get_points_while self max_length fuel'
               (points ++ [new_point]) length radius angle
    end
  else Ok points.

Definition get_points (self : Scribble) (initial_radius max_length : R)
    (fuel : nat) : outcome (list Point) :=
  if Rleb initial_radius 0 then Raise (ValueError "initial_radius must be > 0")
  else if Rleb max_length 0 then Raise (ValueError "max_length must be > 0")
  else get_points_while self max_length fuel [] 0 initial_radius 0.

End LinearScribble.

(** The local variables of the curve generators' [get_points] that live
    across passes of the main loop. *)
Record loop_state : Type := mk_state {
  st_length : R;
  st_radius : R;
  st_angle : R;
  st_point_pool : list Point;
  st_points : list Point
}.

(** [length += curve_length; points += new_points] *)
Definition add_curve (st : loop_state) (curve_length : R)
    (new_points : list Point) : loop_state :=
  {| st_length := st_length st + curve_length;
     st_radius := st_radius st;
     st_angle := st_angle st;
     st_point_pool := st_point_pool st;
     st_points := st_points st ++ new_points |}.

(** ** class BunchedScribble(LinearScribble) *)

Module BunchedScribble.

Import LinearScribble.

Definition MINIMUM_STEPS : Z := 10.

Definition _min_steps (steps : Z) : Z := Z.max steps MINIMUM_STEPS.

(** [bezier_curve_points]; [1.0 / n_steps] raises on [n_steps = 0], and
    [range(1, n_steps + 1)] is empty for a negative [n_steps]. *)
Definition bezier_curve_points (terminus_1 control terminus_2 : Point)
    (n_steps : Z) : outcome (list Point) :=
  let gen_coord (i : Point -> R) (t : R) :=
    i terminus_1 * (1 - t) ^ 2 + i control * 2 * (1 - t) * t + i terminus_2 * t ^ 2 in
  let gen_x := gen_coord fst in
  let gen_y := gen_coord snd in
  if (n_steps =? 0)%Z then Raise ZeroDivisionError
  else
    let step_distance := 1 / IZR n_steps in
    Ok (terminus_1 ::
        map (fun i => let t := IZR i * step_distance in (gen_x t, gen_y t))
            (range 1 (n_steps + 1))).

(** The [while n_points > 0 and curve_length > max_length] loop of
    [_shorten_curve].  Every pass pops one point, so [len(points)] passes
    are enough; the bound is the first argument. *)
Fixpoint shorten_while (bound : nat) (points : list Point)
    (curve_length max_length : R) : list Point * R :=
  match bound with
  | O => (points, curve_length)
  | S bound' =>
      if (0 <? length points)%nat && Rltb max_length curve_length then
        let removed := last_point points in
        let points := removelast points in
        if (0 <? length points)%nat then
          let last_segment_length := distance (last_point points) removed in
          shorten_while bound' points (curve_length - last_segment_length) max_length
        else shorten_while bound' points curve_length max_length
      else (points, curve_length)
  end.

Definition _shorten_curve (points : list Point) (curve_length max_length : R)
  : list Point * R :=
  let '(points, curve_length) :=
    shorten_while (length points) points curve_length max_length in
  if (0 <? length points)%nat then (points, curve_length) else ([], 0).

(** The inner loop [while len(point_pool) < 3]: at most three passes. *)
Fixpoint fill_pool (self : Scribble) (bound : nat) (point_pool : list Point)
    (angle radius : R) : list Point * R * R :=
  match bound with
  | O => (point_pool, angle, radius)
  | S bound' =>
      if (length point_pool <? 3)%nat then
        let '(new_point, angle, radius) := _get_new_point self angle radius in
        fill_pool self bound' (point_pool ++ [new_point]) angle radius
      else (point_pool, angle, radius)
  end.

(** Refill the pool, pop [terminus_1] and [control], read [terminus_2]
    from the front of what remains. *)
Definition next_triple (self : Scribble) (st : loop_state)
  : outcome (Point * Point * Point * loop_state) :=
  let '(point_pool, angle, radius) :=
    fill_pool self 3 (st_point_pool st) (st_angle st) (st_radius st) in
  match point_pool with
  | terminus_1 :: control :: (terminus_2 :: _) as point_pool =>
      Ok (terminus_1, control, terminus_2,
          {| st_length := st_length st; st_radius := radius; st_angle := angle;
             st_point_pool := point_pool; st_points := st_points st |})
  | _ => Raise IndexError
  end.

(** One pass of the main loop up to the two updates that end both of its
    branches: the curve to append, its length, and whether the pass ends
    in [break]. *)
Definition next_curve (self : Scribble) (n_steps : Z) (max_length : R)
    (st : loop_state) : outcome (loop_state * list Point * R * bool) :=
  '(terminus_1, control, terminus_2, st) <- next_triple self st ;;
  new_points <- bezier_curve_points terminus_1 control terminus_2 n_steps ;;
  let remaining := max_length - st_length st in
  curve_length <- total_length new_points ;;
  if Rltb remaining curve_length then
    let '(new_points, curve_length) :=
      _shorten_curve new_points curve_length remaining in
    Ok (st, new_points, curve_length, true)
  else Ok (st, new_points, curve_length, false).

(** The main [while length < max_length] loop. *)
Fixpoint get_points_while (self : Scribble) (n_steps : Z) (max_length : R)
    (fuel : nat) (st : loop_state) : outcome loop_state :=
  if Rltb (st_length st) max_length then
    match fuel with
    | O => OutOfFuel
    | S fuel' =>
        '(st, new_points, curve_length, stop) <- next_curve self n_steps max_length st ;;
        let st := add_curve st curve_length new_points in
        if stop then Ok st
        else get_points_while self n_steps max_length fuel' st
    end
  else Ok st.

Definition get_points (self : Scribble) (initial_radius max_length : R)
    (steps : Z) (fuel : nat) : outcome (list Point) :=
  if Rleb initial_radius 0 then Raise (ValueError "initial_radius must be > 0")
  else if Rleb max_length 0 then Raise (ValueError "max_length must be > 0")
  else
    let n_steps := _min_steps steps in
    st <- get_points_while self n_steps max_length fuel
            {| st_length := 0; st_radius := initial_radius; st_angle := 0;
               st_point_pool := []; st_points := [] |} ;;
    Ok (st_points st).

End BunchedScribble.

(** ** class CurvyScribble(BunchedScribble) *)

Module CurvyScribble.

Import LinearScribble BunchedScribble.

(** [int((n_steps + 1) * 5 / 6) - 1]; [int] truncates towards zero. *)
Definition new_terminus_index (n_steps : Z) : Z :=
  ((n_steps + 1) * 5 ÷ 6 - 1)%Z.

(** One pass of the main loop.  When the cut curve fits, its last point is
    popped off [new_points] and inserted at the front of the pool; the
    curve returned is what [points += new_points] then appends. *)
Definition next_curve (self : Scribble) (n_steps : Z) (max_length : R)
    (st : loop_state) : outcome (loop_state * list Point * R * bool) :=
  '(terminus_1, control, terminus_2, st) <- next_triple self st ;;
  new_points <- bezier_curve_points terminus_1 control terminus_2 n_steps ;;
  let new_points := slice_to new_points (new_terminus_index n_steps + 1) in
  let remaining := max_length - st_length st in
  curve_length <- total_length new_points ;;
  if Rltb remaining curve_length then
    let '(new_points, curve_length) :=
      _shorten_curve new_points curve_length remaining in
    Ok (st, new_points, curve_length, true)
  else
    match new_points with
    | [] => Raise IndexError
    | _ :: _ =>
        let new_terminus_1 := last_point new_points in
        let new_points := removelast new_points in
        Ok ({| st_length := st_length st; st_radius := st_radius st;
               st_angle := st_angle st;
               st_point_pool := new_terminus_1 :: st_point_pool st;
               st_points := st_points st |},
            new_points, curve_length, false)
    end.

Fixpoint get_points_while (self : Scribble) (n_steps : Z) (max_length : R)
    (fuel : nat) (st : loop_state) : outcome loop_state :=
  if Rltb (st_length st) max_length then
    match fuel with
    | O => OutOfFuel
    | S fuel' =>
        '(st, new_points, curve_length, stop) <- next_curve self n_steps max_length st ;;
        let st := add_curve st curve_length new_points in
        if stop then Ok st
        else get_points_while self n_steps max_length fuel' st
    end
  else Ok st.

Definition get_points (self : Scribble) (initial_radius max_length : R)
    (n_steps : Z) (fuel : nat) : outcome (list Point) :=
  if Rleb initial_radius 0 then Raise (ValueError "initial_radius must be > 0")
  else if Rleb max_length 0 then Raise (ValueError "max_length must be > 0")
  else
    let n_steps := _min_steps n_steps in
    st <- get_points_while self n_steps max_length fuel
            {| st_length := 0; st_radius := initial_radius; st_angle := 0;
               st_point_pool := []; st_points := [] |} ;;
    Ok (st_points st).

End CurvyScribble.

(** ** The three generators behind one name

    [get_points] is looked up on the object's class; the straight-line
    generator takes no step count. *)

Inductive generator : Type := Linear | Bunched | Curvy.

Definition get_points (g : generator) (self : Scribble)
    (initial_radius max_length : R) (steps : Z) (fuel : nat)
  : outcome (list Point) :=
  match g with
  | Linear => LinearScribble.get_points self initial_radius max_length fuel
  | Bunched => BunchedScribble.get_points self initial_radius max_length steps fuel
  | Curvy => CurvyScribble.get_points self initial_radius max_length steps fuel
  end.

End Core.

(** * Notions and inputs the properties are stated with *)

Import Points Core.

Module Notions.

(** The length of a path in the words of the specification: the sum of the
    Euclidean distances between consecutive points. *)
Fixpoint path_length (points : list Point) : R :=
  match points with
  | p :: (q :: _) as rest => distance p q + path_length rest
  | _ => 0
  end.

(** Registering a list of mappings one after the other, as a chain of
    builder calls does. *)
Fixpoint register (self : addr) (fns : list (Point -> Point)) (h : heap)
  : outcome (addr * heap) :=
  match fns with
  | [] => Ok (self, h)
  | fn :: fns' => '(self', h') <- _apply self fn h ;; register self' fns' h'
  end.

(** What applying mappings in registration order means for one point:
    the first registered is applied first. *)
Definition apply_in_order (fns : list (Point -> Point)) (pt : Point) : Point :=
  fold_left (fun p fn => fn p) fns pt.

(** The curve of [test_bunch_scribble_shorten_curve]. *)
Definition five_points : list Point :=
  [(0, 0); (3, 5); (20, 9); (-10, 9); (-5, -5)].

(** [PointTransformer().translate(5, -10).scale(3.5, 0.5).transform(points)]
    and the same with the two builder calls exchanged, as in
    [test_point_transformer_operation_order]. *)
Definition translate_then_scale (points : addr) (h : heap) : outcome (addr * heap) :=
  let '(t, h) := PointTransformer h in
  '(t, h) <- translate t 5 (-10) h ;;
  '(t, h) <- scale t 3.5 0.5 h ;;
  transform t points h.

Definition scale_then_translate (points : addr) (h : heap) : outcome (addr * heap) :=
  let '(t, h) := PointTransformer h in
  '(t, h) <- scale t 3.5 0.5 h ;;
  '(t, h) <- translate t 5 (-10) h ;;
  transform t points h.

(** A heap with one pipeline, [PointTransformer().translate(5, -10)], and
    two lists of points. *)
Definition translate_fn : Point -> Point :=
  fun pt => (fst pt + 5, snd pt + -10).

Definition one_pipeline_two_lists : heap :=
  [Transformer [(fun pt => pt); translate_fn];
   PointList [(0, 0); (3, 5)];
   PointList [(4, 9)]].

(** The quadratic Bezier formula in the words of the specification:
    [P(t) = (1-t)^2 T1 + 2(1-t)t C + t^2 T2], coordinate by coordinate. *)
Definition quadratic_bezier (T1 C T2 : Point) (t : R) : Point :=
  ((1 - t) ^ 2 * fst T1 + 2 * (1 - t) * t * fst C + t ^ 2 * fst T2,
   (1 - t) ^ 2 * snd T1 + 2 * (1 - t) * t * snd C + t ^ 2 * snd T2).

(** The state every generator's main loop starts from. *)
Definition initial_state (initial_radius : R) : loop_state :=
  {| st_length := 0; st_radius := initial_radius; st_angle := 0;
     st_point_pool := []; st_points := [] |}.

(** What holds of the curve generators' state at the head of the main
    loop: the tracked length is within the budget, and it is the length of
    the path through the points emitted so far and on to the point at the
    front of the pool, where the next curve starts. *)
Definition loop_invariant (max_length : R) (st : loop_state) : Prop :=
  st_length st <= max_length
  /\ ((st_points st = [] /\ st_length st = 0)
      \/ (exists q rest,
            st_point_pool st = q :: rest
            /\ st_points st <> []
            /\ path_length (st_points st ++ [q]) = st_length st)).



(** A scribble whose walk goes along the x axis: the angle stays 0 and
    the radius grows by 1 at every step. *)
Definition straight_walk : Scribble :=
  {| origin := (0, 0);
     radius_modifier_fn := fun r => r + 1;
     angle_modifier_fn := fun a => a |}.

(** The scribble of [test_linear_scribble_get_points_circle]: constant
    radius, the angle grows by 15 degrees at every step. *)
Definition circle_walk : Scribble :=
  {| origin := (0, 0);
     radius_modifier_fn := fun r => r;
     angle_modifier_fn := fun a => a + 15 |}.

(** A scribble that never moves: constant radius and angle. *)
Definition standstill : Scribble :=
  {| origin := (0, 0);
     radius_modifier_fn := fun r => r;
     angle_modifier_fn := fun a => a |}.

(** The point formula of the specification at step [k] of the circle
    walk: radius 10, angle [15 k] degrees, origin (0, 0). *)
Definition circle_point (k : nat) : Point :=
  (10 * cos (15 * INR k * (PI / 180)) + 0,
   10 * sin (15 * INR k * (PI / 180)) + 0).

(** [length_of_third_side(10, 10, 15)] of the tests: the law of cosines. *)
Definition length_per_arc : R :=
  sqrt (10 ^ 2 + 10 ^ 2 - 2 * 10 * 10 * cos (15 * (PI / 180))).

(** Two points that agree to within [eps] in each coordinate. *)
Definition within (eps : R) (p q : Point) : Prop :=
  Rabs (fst p - fst q) <= eps /\ Rabs (snd p - snd q) <= eps.

(** The eleven points, a fifth apart, of the curve through three walk
    points (a, 0), (a + 1, 0), (a + 2, 0) of the straight walk. *)
Definition straight_curve (a : R) : list Point :=
  map (fun i : Z => (a + IZR i / 5, 0)) (range 0 11).


(** The first nine points of that curve: what [CurvyScribble] keeps of
    it for a step count of 10. *)
Definition straight_cut (a : R) : list Point :=
  firstn 9 (straight_curve a).

End Notions.

Import Notions.

(** * Chains of builder calls, and the walk behind the generators *)

Module Pipeline.

(** One builder call of [PointTransformer], with its arguments. *)
Inductive builder : Type :=
| Rotate (angle : R)
| Translate (x y : R)
| Scale (x y : R)
| MirrorHorizontal
| MirrorVertical
| Limit (x_max x_min y_max y_min : R).

Definition call (b : builder) (self : addr) : heap -> outcome (addr * heap) :=
  match b with
  | Rotate angle => rotate self angle
  | Translate x y => translate self x y
  | Scale x y => scale self x y
  | MirrorHorizontal => mirror_horizontal self
  | MirrorVertical => mirror_vertical self
  | Limit x_max x_min y_max y_min => limit self x_max x_min y_max y_min
  end.

(** [self.b1(...).b2(...)...]: each call is made on what the call before
    returned. *)
Fixpoint chain (bs : list builder) (self : addr) (h : heap)
  : outcome (addr * heap) :=
  match bs with
  | [] => Ok (self, h)
  | b :: bs' => '(self', h') <- call b self h ;; chain bs' self' h'
  end.

(** The mapping that a builder call hands to [_apply]. *)
Definition mapping (b : builder) : Point -> Point :=
  match b with
  | Rotate angle =>
      let radians := Points.RADIANS * angle in
      fun pt => (fst pt * cos radians + snd pt * sin radians,
                 snd pt * cos radians - fst pt * sin radians)
  | Translate x y => fun pt => (fst pt + x, snd pt + y)
  | Scale x y => fun pt => (fst pt * x, snd pt * y)
  | MirrorHorizontal => fun pt => (- fst pt, snd pt)
  | MirrorVertical => fun pt => (fst pt, - snd pt)
  | Limit x_max x_min y_max y_min =>
      fun pt => (Rmin (Rmax (fst pt) x_min) x_max,
                 Rmin (Rmax (snd pt) y_min) y_max)
  end.

(** The list of points stored at an address. *)
Definition read_points (a : addr) (h : heap) : outcome (list Point) :=
  match nth_error h a with
  | Some (PointList items) => Ok items
  | _ => Raise TypeError
  end.

(** [points = [...]; PointTransformer().b1(...)....transform(points)]:
    the content of the list that [transform] returns. *)
Definition transformed (bs : list builder) (items : list Point) (h : heap)
  : outcome (list Point) :=
  let '(points, h) := alloc (PointList items) h in
  let '(t, h) := PointTransformer h in
  '(t, h) <- chain bs t h ;;
  '(result, h) <- transform t points h ;;
  read_points result h.

(** Builder calls that move points without changing the distances
    between them. *)
Definition rigid (b : builder) : Prop :=
  match b with
  | Rotate _ | Translate _ _ | MirrorHorizontal | MirrorVertical => True
  | Scale _ _ | Limit _ _ _ _ => False
  end.

(** The builder call that undoes another, where there is one. *)
Definition inverse (b : builder) : option builder :=
  match b with
  | Rotate angle => Some (Rotate (- angle))
  | Translate x y => Some (Translate (- x) (- y))
  | Scale x y => if Req_dec_T x 0 then None
                 else if Req_dec_T y 0 then None
                 else Some (Scale (/ x) (/ y))
  | MirrorHorizontal => Some MirrorHorizontal
  | MirrorVertical => Some MirrorVertical
  | Limit _ _ _ _ => None
  end.

(** The points that the tests of [PointTransformer] transform. *)
Definition test_points : list Point :=
  [(0, 0); (3, 5); (10, -12); (-50, -15); (-40, 16)].

End Pipeline.

Module Walk.





End Walk.

(** * The curve generator over binary64 numbers

    [BunchedScribble.get_points] and what it calls, as above, with every
    [float] a binary64 number and every operation rounded to the nearest,
    ties to even.  An [int] that meets a [float] ([length = 0], [angle = 0],
    [control[i] * 2], [1.0 / n_steps]) is converted first, which changes no
    value; [x ** 2] is the correctly rounded square.  [math.cos] and
    [math.sin] belong to the C library and are taken as parameters. *)

Module Binary64.

Import PrimFloat.

Local Open Scope float_scope.

Definition Point : Type := (float * float)%type.

(** [float(i)] for an [int]; exact below [2 ** 53]. *)
Fixpoint of_pos (p : positive) : float :=
  match p with
  | xH => 1
  | xO p' => 2 * of_pos p'
  | xI p' => 2 * of_pos p' + 1
  end.

Definition of_int (i : Z) : float :=
  match i with
  | Z0 => 0
  | Zpos p => of_pos p
  | Zneg p => - of_pos p
  end.

(** [x ** 2] *)
Definition square (x : float) : float := x * x.

(** [math.cos] and [math.sin]. *)
Record Libm : Type := {
  cos : float -> float;
  sin : float -> float
}.

(** [math.pi] *)
Definition pi : float := 0x1.921fb54442d18p+1.

(** [distance(point_1, point_2)] *)
Definition distance (point_1 point_2 : Point) : float :=
  sqrt (square (fst point_2 - fst point_1) + square (snd point_2 - snd point_1)).

Fixpoint total_length_loop (total : float) (point_1 : Point) (rest : list Point)
  : float :=
  match rest with
  | [] => total
  | point_2 :: rest' =>
      total_length_loop (total + distance point_1 point_2) point_2 rest'
  end.

(** [total_length(points)] *)
Definition total_length (points : list Point) : outcome float :=
  match points with
  | [] => Raise IndexError
  | point_1 :: rest => Ok (total_length_loop 0 point_1 rest)
  end.

Record Scribble : Type := {
  origin : Point;
  radius_modifier_fn : float -> float;
  angle_modifier_fn : float -> float
}.

Definition last_point (points : list Point) : Point := last points (0, 0).

Module LinearScribble.

Definition RADIANS : float := pi / 180.

Definition _get_new_point (libm : Libm) (self : Scribble) (angle radius : float)
  : Point * float * float :=
  let radians := angle * RADIANS in
  let x := radius * cos libm radians + fst (origin self) in
  let y := radius * sin libm radians + snd (origin self) in
  let new_point := (x, y) in
  let new_radius := radius_modifier_fn self radius in
  let new_angle := angle_modifier_fn self angle in
  (new_point, new_angle, new_radius).

End LinearScribble.

Record loop_state : Type := mk_state {
  st_length : float;
  st_radius : float;
  st_angle : float;
  st_point_pool : list Point;
  st_points : list Point
}.

(** [length += curve_length; points += new_points] *)
Definition add_curve (st : loop_state) (curve_length : float)
    (new_points : list Point) : loop_state :=
  {| st_length := st_length st + curve_length;
     st_radius := st_radius st;
     st_angle := st_angle st;
     st_point_pool := st_point_pool st;
     st_points := st_points st ++ new_points |}.

Module BunchedScribble.

Import LinearScribble.

Definition MINIMUM_STEPS : Z := 10.

Definition _min_steps (steps : Z) : Z := Z.max steps MINIMUM_STEPS.

Definition bezier_curve_points (terminus_1 control terminus_2 : Point)
    (n_steps : Z) : outcome (list Point) :=
  let gen_coord (i : Point -> float) (t : float) :=
    i terminus_1 * square (1 - t) + i control * 2 * (1 - t) * t
    + i terminus_2 * square t in
  let gen_x := gen_coord fst in
  let gen_y := gen_coord snd in
  if (n_steps =? 0)%Z then Raise ZeroDivisionError
  else
    let step_distance := 1 / of_int n_steps in
    Ok (terminus_1 ::
        map (fun i => let t := of_int i * step_distance in (gen_x t, gen_y t))
            (range 1 (n_steps + 1))).

(** The [while n_points > 0 and curve_length > max_length] loop of
    [_shorten_curve]; [len(points)] passes are enough. *)
Fixpoint shorten_while (bound : nat) (points : list Point)
    (curve_length max_length : float) : list Point * float :=
  match bound with
  | O => (points, curve_length)
  | S bound' =>
      if (0 <? length points)%nat && ltb max_length curve_length then
        let removed := last_point points in
        let points := removelast points in
        if (0 <? length points)%nat then
          let last_segment_length := distance (last_point points) removed in
          shorten_while bound' points (curve_length - last_segment_length) max_length
        else shorten_while bound' points curve_length max_length
      else (points, curve_length)
  end.

Definition _shorten_curve (points : list Point) (curve_length max_length : float)
  : list Point * float :=
  let '(points, curve_length) :=
    shorten_while (length points) points curve_length max_length in
  if (0 <? length points)%nat then (points, curve_length) else ([], 0).

(** The inner loop [while len(point_pool) < 3]. *)
Fixpoint fill_pool (libm : Libm) (self : Scribble) (bound : nat)
    (point_pool : list Point) (angle radius : float)
  : list Point * float * float :=
  match bound with
  | O => (point_pool, angle, radius)
  | S bound' =>
      if (length point_pool <? 3)%nat then
        let '(new_point, angle, radius) := _get_new_point libm self angle radius in
        fill_pool libm self bound' (point_pool ++ [new_point]) angle radius
      else (point_pool, angle, radius)
  end.

Definition next_triple (libm : Libm) (self : Scribble) (st : loop_state)
  : outcome (Point * Point * Point * loop_state) :=
  let '(point_pool, angle, radius) :=
    fill_pool libm self 3 (st_point_pool st) (st_angle st) (st_radius st) in
  match point_pool with
  | terminus_1 :: control :: (terminus_2 :: _) as point_pool =>
      Ok (terminus_1, control, terminus_2,
          {| st_length := st_length st; st_radius := radius; st_angle := angle;
             st_point_pool := point_pool; st_points := st_points st |})
  | _ => Raise IndexError
  end.

Definition next_curve (libm : Libm) (self : Scribble) (n_steps : Z)
    (max_length : float) (st : loop_state)
  : outcome (loop_state * list Point * float * bool) :=
  '(terminus_1, control, terminus_2, st) <- next_triple libm self st ;;
  new_points <- bezier_curve_points terminus_1 control terminus_2 n_steps ;;
  let remaining := max_length - st_length st in
  curve_length <- total_length new_points ;;
  if ltb remaining curve_length then
    let '(new_points, curve_length) :=
      _shorten_curve new_points curve_length remaining in
    Ok (st, new_points, curve_length, true)
  else Ok (st, new_points, curve_length, false).

Fixpoint get_points_while (libm : Libm) (self : Scribble) (n_steps : Z)
    (max_length : float) (fuel : nat) (st : loop_state) : outcome loop_state :=
  if ltb (st_length st) max_length then
    match fuel with
    | O => OutOfFuel
    | S fuel' =>
        '(st, new_points, curve_length, stop) <-
          next_curve libm self n_steps max_length st ;;
        let st := add_curve st curve_length new_points in
        if stop then Ok st
        else get_points_while libm self n_steps max_length fuel' st
    end
  else Ok st.

Definition get_points (libm : Libm) (self : Scribble)
    (initial_radius max_length : float) (steps : Z) (fuel : nat)
  : outcome (list Point) :=
  if leb initial_radius 0 then Raise (ValueError "initial_radius must be > 0")
  else if leb max_length 0 then Raise (ValueError "max_length must be > 0")
  else
    let n_steps := _min_steps steps in
    st <- get_points_while libm self n_steps max_length fuel
            {| st_length := 0; st_radius := initial_radius; st_angle := 0;
               st_point_pool := []; st_points := [] |} ;;
    Ok (st_points st).

End BunchedScribble.

(** *** Inputs *)

(** [BunchedScribble(radius_fn=lambda r: r * 0.5, angle_fn=lambda a: a)]:
    every point on the x axis, each half as far out as the one before. *)
Definition halving_walk : Scribble :=
  {| origin := (0, 0);
     radius_modifier_fn := fun r => r * 0.5;
     angle_modifier_fn := fun a => a |}.

(** [BunchedScribble(radius_fn=lambda r: {2.0**53: 2.0**52, 2.0**52: 0.0,
    0.0: 12.0, 12.0: 24.0}.get(r, r), angle_fn=lambda a: a)]: from
    [2 ** 53] on the x axis in to the origin, then out to 12 and 24. *)
Definition stepping_walk : Scribble :=
  {| origin := (0, 0);
     radius_modifier_fn := fun r =>
       if eqb r 0x1p53 then 0x1p52
       else if eqb r 0x1p52 then 0
       else if eqb r 0 then 12
       else if eqb r 12 then 24
       else r;
     angle_modifier_fn := fun a => a |}.

(** The seventeen points [(x0 + k * dx, 0)], [k] from 0 to 16. *)
Definition level_points (x0 dx : float) : list Point :=
  map (fun k => (x0 + of_int k * dx, 0)) (range 0 17).

(** Functions that are right at 0, where the runs below call [math.cos]
    and [math.sin]. *)
Definition right_at_0 : Libm :=
  {| cos := fun x => 1 - square x / 2; sin := fun x => x |}.

End Binary64.

(** * Properties *)

(** ** Comparisons *)

Lemma Rltb_true (x y : R) : x < y -> Rltb x y = true.
Proof. intros H. unfold Rltb. destruct (Rlt_dec x y); [reflexivity | contradiction]. Qed.

Lemma Rltb_false (x y : R) : y <= x -> Rltb x y = false.
Proof. intros H. unfold Rltb. destruct (Rlt_dec x y); [lra | reflexivity]. Qed.

Lemma Rltb_spec (x y : R) : reflect (x < y) (Rltb x y).
Proof. unfold Rltb. destruct (Rlt_dec x y); constructor; assumption. Qed.


Lemma Rleb_false (x y : R) : y < x -> Rleb x y = false.
Proof. intros H. unfold Rleb. destruct (Rle_dec x y); [lra | reflexivity]. Qed.



(** ** Distances and lengths *)

Lemma distance_nonneg (p q : Point) : 0 <= distance p q.
Proof. unfold distance. apply sqrt_pos. Qed.

Lemma distance_same (p : Point) : distance p p = 0.
Proof.
  unfold distance.
  replace ((fst p - fst p) ^ 2 + (snd p - snd p) ^ 2) with 0 by ring.
  apply sqrt_0.
Qed.

Lemma distance_horizontal (a b y : R) : a <= b -> distance (a, y) (b, y) = b - a.
Proof.
  intros Hab. unfold distance. cbn [fst snd].
  replace ((b - a) ^ 2 + (y - y) ^ 2) with ((b - a) ^ 2) by ring.
  apply sqrt_pow2. lra.
Qed.

Lemma distance_horizontal_back (a b y : R) : b <= a -> distance (a, y) (b, y) = a - b.
Proof.
  intros Hab. unfold distance. cbn [fst snd].
  replace ((b - a) ^ 2 + (y - y) ^ 2) with ((a - b) ^ 2) by ring.
  apply sqrt_pow2. lra.
Qed.

Lemma total_length_loop_path (rest : list Point) :
  forall total point_1,
    total_length_loop total point_1 rest = total + path_length (point_1 :: rest).
Proof.
  induction rest as [|point_2 rest IH]; intros total point_1.
  - cbn. ring.
  - cbn [total_length_loop]. rewrite IH.
    change (path_length (point_1 :: point_2 :: rest))
      with (distance point_1 point_2 + path_length (point_2 :: rest)).
    ring.
Qed.

(** On a non-empty list the code's [total_length] is the sum of the
    distances between consecutive points. *)
Lemma total_length_path (p : Point) (rest : list Point) :
  total_length (p :: rest) = Ok (path_length (p :: rest)).
Proof.
  cbn [total_length]. rewrite total_length_loop_path. f_equal. ring.
Qed.

Lemma total_length_single (p : Point) : total_length [p] = Ok 0.
Proof. reflexivity. Qed.

Lemma path_length_nonneg (points : list Point) : 0 <= path_length points.
Proof.
  induction points as [|p [|q rest] IH]; cbn [path_length]; try lra.
  pose proof (distance_nonneg p q). cbn [path_length] in IH. lra.
Qed.

Lemma path_length_app (l1 : list Point) :
  forall p l2,
    path_length (l1 ++ p :: l2) = path_length (l1 ++ [p]) + path_length (p :: l2).
Proof.
  induction l1 as [|a l1 IH]; intros p l2.
  - cbn [app path_length]. destruct l2; cbn [path_length]; lra.
  - destruct l1 as [|b l1].
    + cbn [app path_length]. lra.
    + change ((a :: b :: l1) ++ p :: l2) with (a :: (b :: l1) ++ p :: l2).
      change ((a :: b :: l1) ++ [p]) with (a :: (b :: l1) ++ [p]).
      specialize (IH p l2).
      change ((b :: l1) ++ p :: l2) with (b :: l1 ++ p :: l2) in *.
      change ((b :: l1) ++ [p]) with (b :: l1 ++ [p]) in *.
      cbn [path_length] in *. lra.
Qed.

Lemma path_length_snoc (l : list Point) (p q : Point) :
  path_length ((l ++ [p]) ++ [q]) = path_length (l ++ [p]) + distance p q.
Proof.
  rewrite <- app_assoc. cbn [app]. rewrite path_length_app.
  cbn [path_length]. lra.
Qed.

(** C3, at the empty sequence: [points[0]] raises [IndexError], so
    [total_length] does not return 0 there; on every non-empty sequence it
    is the sum of the consecutive distances ([total_length_path]). *)
Theorem total_length_empty_raises :
  total_length [] = Raise IndexError
  /\ (forall p rest, total_length (p :: rest) = Ok (path_length (p :: rest)))
  /\ (forall p, total_length [p] = Ok 0)
  /\ max_distance [] (0, 0) = 0.
Proof.
  split; [reflexivity|]. split; [exact total_length_path|].
  split; [exact total_length_single | reflexivity].
Qed.

(** ** Shortening a curve *)

Lemma last_point_snoc (l : list Point) (p : Point) : last_point (l ++ [p]) = p.
Proof. unfold last_point. apply last_last. Qed.

Lemma snoc_last_point (l : list Point) :
  l <> [] -> l = removelast l ++ [last_point l].
Proof. intros H. unfold last_point. apply app_removelast_last. exact H. Qed.

Lemma path_length_pop (l : list Point) :
  removelast l <> [] ->
  path_length l
  = path_length (removelast l) + distance (last_point (removelast l)) (last_point l).
Proof.
  intros Hne.
  assert (Hl : l <> []) by (intros ->; apply Hne; reflexivity).
  pose proof (snoc_last_point l Hl) as El.
  pose proof (snoc_last_point (removelast l) Hne) as Er.
  remember (removelast l) as r eqn:Dr.
  remember (last_point l) as x eqn:Dx.
  remember (removelast r) as r' eqn:Dr'.
  remember (last_point r) as y eqn:Dy.
  rewrite El, Er. apply path_length_snoc.
Qed.

Lemma path_length_pop_single (l : list Point) :
  removelast l = [] -> path_length l = 0.
Proof.
  destruct l as [|p [|q l]]; try reflexivity.
  intros H. cbn in H. discriminate.
Qed.

Lemma length_pos_nonempty {A : Type} (l : list A) :
  (0 <? length l)%nat = true <-> l <> [].
Proof.
  destruct l; cbn; split; intros H; try reflexivity; try discriminate.
  contradiction.
Qed.

Lemma length_zero_empty {A : Type} (l : list A) :
  (0 <? length l)%nat = false <-> l = [].
Proof.
  destruct l; cbn; split; intros H; try reflexivity; discriminate.
Qed.

Lemma removelast_prefix {A : Type} (l : list A) :
  removelast l = firstn (length l - 1) l.
Proof.
  destruct l as [|a l]; [reflexivity|].
  replace (length (a :: l) - 1)%nat with (length l) by (cbn; lia).
  revert a. induction l as [|b l IH]; intros a; [reflexivity|].
  cbn [removelast length firstn] in *. f_equal. apply IH.
Qed.

(** What the popping loop returns when the tracked length is the length
    of the curve it is given: a prefix of the curve with its own length,
    within the budget, and not empty unless the curve was. *)
Lemma shorten_while_spec (bound : nat) :
  forall points curve_length max_length,
    (length points <= bound)%nat ->
    curve_length = path_length points ->
    0 <= max_length ->
    exists k,
      BunchedScribble.shorten_while bound points curve_length max_length
      = (firstn k points, path_length (firstn k points))
      /\ path_length (firstn k points) <= max_length
      /\ (points <> [] -> firstn k points <> []).
Proof.
  induction bound as [|bound IH]; intros points cl ml Hlen Hcl Hml.
  - destruct points; [|cbn in Hlen; lia].
    exists 0%nat. cbn. subst cl. cbn. repeat split; auto; lra.
  - cbn [BunchedScribble.shorten_while].
    destruct (0 <? length points)%nat eqn:Hpos; cbn [andb].
    2:{ apply length_zero_empty in Hpos. subst points cl.
        exists 0%nat. cbn. repeat split; auto; lra. }
    destruct (Rltb_spec ml cl) as [Hgt|Hle].
    2:{ exists (length points). rewrite firstn_all. subst cl.
        repeat split; auto; lra. }
    apply length_pos_nonempty in Hpos.
    assert (Hlen' : (length (removelast points) <= bound)%nat).
    { rewrite removelast_prefix, length_firstn. lia. }
    destruct (0 <? length (removelast points))%nat eqn:Hpos'.
    + apply length_pos_nonempty in Hpos'.
      destruct (IH (removelast points)
                  (cl - distance (last_point (removelast points)) (last_point points))
                  ml Hlen') as (k & Hk & Hfit & Hne); auto.
      { rewrite Hcl, (path_length_pop points Hpos'). ring. }
      exists (Nat.min k (length points - 1)).
      assert (E : firstn k (removelast points)
                  = firstn (Nat.min k (length points - 1)) points)
        by (rewrite removelast_prefix, firstn_firstn; reflexivity).
      rewrite Hk. rewrite E in *. repeat split; auto.
    + apply length_zero_empty in Hpos'.
      pose proof (path_length_pop_single points Hpos') as Hzero.
      exists 1%nat. rewrite Hpos'.
      destruct bound; cbn [BunchedScribble.shorten_while length Nat.ltb Nat.leb andb];
        destruct points as [|p [|q points]]; try contradiction;
        try (cbn in Hpos'; discriminate).
      * cbn. subst cl. cbn in Hgt. lra.
      * cbn. subst cl. cbn in Hgt. lra.
Qed.

Lemma shorten_curve_spec (points : list Point) (curve_length max_length : R) :
  curve_length = path_length points ->
  0 <= max_length ->
  exists k,
    BunchedScribble._shorten_curve points curve_length max_length
    = (firstn k points, path_length (firstn k points))
    /\ path_length (firstn k points) <= max_length
    /\ (points <> [] -> firstn k points <> []).
Proof.
  intros Hcl Hml. unfold BunchedScribble._shorten_curve.
  destruct (shorten_while_spec (length points) points curve_length max_length)
    as (k & Hk & Hfit & Hne); auto.
  rewrite Hk.
  destruct (0 <? length (firstn k points))%nat eqn:Hpos.
  - exists k. auto.
  - apply length_zero_empty in Hpos. exists k. rewrite Hpos in *.
    repeat split; auto.
Qed.

(** C5: on the five-point curve, with [K] its length and [D] the length
    across its last three points, [_shorten_curve] with the budget
    [K - D + 1] returns the first three points, and the length it returns
    is [total_length] of those three points. *)
Theorem shorten_curve_five_points :
  exists K D len,
    total_length Notions.five_points = Ok K
    /\ total_length (skipn 2 Notions.five_points) = Ok D
    /\ BunchedScribble._shorten_curve Notions.five_points K (K - D + 1)
       = (firstn 3 Notions.five_points, len)
    /\ total_length (firstn 3 Notions.five_points) = Ok len.
Proof.
  exists (path_length Notions.five_points),
         (path_length (skipn 2 Notions.five_points)),
         (path_length (firstn 3 Notions.five_points)).
  unfold Notions.five_points.
  split; [apply total_length_path|].
  split; [apply total_length_path|].
  split; [|apply total_length_path].
  cbn [skipn firstn path_length].
  assert (H3 : distance (20, 9) (-10, 9) = 30)
    by (rewrite distance_horizontal_back; lra).
  pose proof (distance_nonneg (-10, 9) (-5, -5)) as H4.
  pose proof (distance_nonneg (3, 5) (20, 9)) as H2.
  pose proof (distance_nonneg (0, 0) (3, 5)) as H1.
  rewrite H3.
  remember (distance (-10, 9) (-5, -5)) as d4.
  remember (distance (3, 5) (20, 9)) as d2.
  remember (distance (0, 0) (3, 5)) as d1.
  unfold BunchedScribble._shorten_curve.
  cbn [length BunchedScribble.shorten_while Nat.ltb Nat.leb andb].
  rewrite Rltb_true by lra.
  cbn [removelast last_point last length Nat.ltb Nat.leb andb].
  rewrite <- Heqd4.
  rewrite Rltb_true by lra.
  cbn [removelast last_point last length Nat.ltb Nat.leb andb].
  rewrite H3.
  rewrite Rltb_false by lra.
  cbn [length Nat.ltb Nat.leb].
  f_equal. lra.
Qed.

(** ** The heap *)

Lemma nth_error_alloc_old (h : heap) (o : object) (a : addr) (x : object) :
  nth_error h a = Some x -> nth_error (snd (alloc o h)) a = Some x.
Proof.
  intros H. cbn [alloc snd]. rewrite nth_error_app1; [exact H|].
  apply nth_error_Some. congruence.
Qed.

Lemma nth_error_alloc_new (h : heap) (o : object) :
  nth_error (snd (alloc o h)) (fst (alloc o h)) = Some o.
Proof.
  cbn [alloc fst snd]. rewrite nth_error_app2 by lia.
  rewrite Nat.sub_diag. reflexivity.
Qed.

Lemma alloc_fresh (h : heap) (o : object) : nth_error h (fst (alloc o h)) = None.
Proof. cbn [alloc fst]. apply nth_error_None. lia. Qed.

Lemma nth_error_store_same (h : heap) :
  forall a o x, nth_error h a = Some x -> nth_error (store a o h) a = Some o.
Proof.
  induction h as [|y h IH]; intros [|a] o x H; cbn in *; try discriminate; auto.
  eapply IH; eauto.
Qed.

Lemma nth_error_store_other (h : heap) :
  forall a b o, a <> b -> nth_error (store a o h) b = nth_error h b.
Proof.
  induction h as [|y h IH]; intros [|a] [|b] o Hab; cbn; auto; try congruence.
Qed.

(** ** Pipelines *)

Lemma fold_composition (fns : list (Point -> Point)) :
  forall fn pt,
    fold_left composition fns fn pt = apply_in_order fns (fn pt).
Proof.
  induction fns as [|g fns IH]; intros fn pt; [reflexivity|].
  cbn [fold_left]. rewrite IH. reflexivity.
Qed.

Lemma apply_in_order_app (fns gns : list (Point -> Point)) (pt : Point) :
  apply_in_order (fns ++ gns) pt = apply_in_order gns (apply_in_order fns pt).
Proof. unfold apply_in_order. apply fold_left_app. Qed.

(** A chain of builder calls appends its mappings, in call order, to the
    receiver's [_fns], returns the receiver, and touches nothing else. *)
Lemma register_spec (fns : list (Point -> Point)) :
  forall self h fns0,
    nth_error h self = Some (Transformer fns0) ->
    exists h',
      register self fns h = Ok (self, h')
      /\ nth_error h' self = Some (Transformer (fns0 ++ fns))
      /\ (forall b, b <> self -> nth_error h' b = nth_error h b).
Proof.
  induction fns as [|fn fns IH]; intros self h fns0 Hself.
  - exists h. cbn. rewrite app_nil_r. auto.
  - cbn [register]. unfold _apply. rewrite Hself. cbn [bind].
    destruct (IH self (store self (Transformer (fns0 ++ [fn])) h) (fns0 ++ [fn]))
      as (h' & Hreg & Hfns & Hframe).
    { eapply nth_error_store_same; eauto. }
    exists h'. split; [exact Hreg|]. split.
    + rewrite Hfns. rewrite <- app_assoc. reflexivity.
    + intros b Hb. rewrite Hframe by exact Hb.
      apply nth_error_store_other. congruence.
Qed.

(** What [transform] does to the heap: one new list object holding the
    image of every input point under the mappings applied in list order;
    every object that was there is as it was. *)
Lemma transform_spec (h : heap) (self points : addr)
    (fn : Point -> Point) (fns : list (Point -> Point)) (items : list Point) :
  nth_error h self = Some (Transformer (fn :: fns)) ->
  nth_error h points = Some (PointList items) ->
  exists result h',
    transform self points h = Ok (result, h')
    /\ nth_error h result = None
    /\ nth_error h' result
       = Some (PointList (map (apply_in_order (fn :: fns)) items))
    /\ (forall a x, nth_error h a = Some x -> nth_error h' a = Some x).
Proof.
  intros Hself Hpoints. unfold transform. rewrite Hself, Hpoints.
  cbn [reduce bind].
  set (o := PointList (map (fold_left composition fns fn) items)).
  exists (fst (alloc o h)), (snd (alloc o h)).
  split; [reflexivity|]. split; [apply alloc_fresh|]. split.
  - rewrite nth_error_alloc_new. unfold o. do 2 f_equal.
    apply map_ext. intros pt. apply fold_composition.
  - intros a x Ha. apply nth_error_alloc_old. exact Ha.
Qed.

Lemma apply_spec (h : heap) (self : addr) (fns0 : list (Point -> Point))
    (fn : Point -> Point) :
  nth_error h self = Some (Transformer fns0) ->
  _apply self fn h = Ok (self, store self (Transformer (fns0 ++ [fn])) h)
  /\ nth_error (store self (Transformer (fns0 ++ [fn])) h) self
     = Some (Transformer (fns0 ++ [fn]))
  /\ (forall b, b <> self ->
        nth_error (store self (Transformer (fns0 ++ [fn])) h) b = nth_error h b).
Proof.
  intros Hself. unfold _apply. rewrite Hself. split; [reflexivity|]. split.
  - eapply nth_error_store_same; eauto.
  - intros b Hb. apply nth_error_store_other. congruence.
Qed.

Lemma new_transformer_spec (h : heap) :
  nth_error (snd (PointTransformer h)) (fst (PointTransformer h))
  = Some (Transformer [fun pt => pt])
  /\ nth_error h (fst (PointTransformer h)) = None
  /\ (forall a x, nth_error h a = Some x ->
        nth_error (snd (PointTransformer h)) a = Some x).
Proof.
  unfold PointTransformer. split; [apply nth_error_alloc_new|].
  split; [apply alloc_fresh|]. intros a x. apply nth_error_alloc_old.
Qed.

(** C7: a pipeline made by [PointTransformer()] and any chain of builder
    calls maps every input point through the registered mappings, first
    registered first; and on the point (0, 0) translate-then-scale and
    scale-then-translate give different results. *)
Theorem transform_registration_order :
  (forall (h : heap) (fns : list (Point -> Point)) (points : addr)
          (items : list Point),
      nth_error h points = Some (PointList items) ->
      exists h2 result h3,
        register (fst (PointTransformer h)) fns (snd (PointTransformer h))
        = Ok (fst (PointTransformer h), h2)
        /\ transform (fst (PointTransformer h)) points h2 = Ok (result, h3)
        /\ nth_error h3 result
           = Some (PointList (map (apply_in_order fns) items)))
  /\ (exists pt : Point,
       forall (h : heap) (points : addr),
         nth_error h points = Some (PointList [pt]) ->
         exists r1 h1 r2 h2 out1 out2,
           Notions.translate_then_scale points h = Ok (r1, h1)
           /\ nth_error h1 r1 = Some (PointList [out1])
           /\ Notions.scale_then_translate points h = Ok (r2, h2)
           /\ nth_error h2 r2 = Some (PointList [out2])
           /\ out1 <> out2).
Proof.
  split.
  - intros h fns points items Hpoints.
    destruct (new_transformer_spec h) as (Hnew & Hfresh & Hold).
    set (self := fst (PointTransformer h)) in *.
    set (h1 := snd (PointTransformer h)) in *.
    destruct (register_spec fns self h1 _ Hnew) as (h2 & Hreg & Hfns & Hframe).
    assert (Hne : points <> self) by (intros ->; congruence).
    assert (Hpoints2 : nth_error h2 points = Some (PointList items)).
    { rewrite Hframe by exact Hne. apply Hold. exact Hpoints. }
    cbn [app] in Hfns.
    destruct (transform_spec h2 self points _ _ items Hfns Hpoints2)
      as (result & h3 & Htr & _ & Hres & _).
    exists h2, result, h3. repeat split; auto.
  - exists (0, 0). intros h points Hpoints.
    destruct (new_transformer_spec h) as (Hnew & Hfresh & Hold).
    assert (Hne : points <> fst (PointTransformer h)) by (intros ->; congruence).
    unfold Notions.translate_then_scale, Notions.scale_then_translate.
    destruct (PointTransformer h) as [t h0] eqn:Enew. cbn [fst snd] in *.
    unfold translate, scale.
    (* translate, then scale *)
    destruct (apply_spec h0 t _ (fun pt : Point => (fst pt + 5, snd pt + -10)) Hnew)
      as (Ea & Ha & Fa).
    destruct (apply_spec _ t _ (fun pt : Point => (fst pt * 3.5, snd pt * 0.5)) Ha)
      as (Eb & Hb & Fb).
    (* scale, then translate *)
    destruct (apply_spec h0 t _ (fun pt : Point => (fst pt * 3.5, snd pt * 0.5)) Hnew)
      as (Ec & Hc & Fc).
    destruct (apply_spec _ t _ (fun pt : Point => (fst pt + 5, snd pt + -10)) Hc)
      as (Ed & Hd & Fd).
    cbn [app] in *.
    rewrite Ea. cbn [bind]. rewrite Eb. cbn [bind].
    rewrite Ec. cbn [bind]. rewrite Ed. cbn [bind].
    match type of Hb with nth_error ?hb _ = _ =>
      destruct (transform_spec hb t points _ _ [(0, 0)] Hb) as (r1 & h1 & T1 & _ & O1 & _)
    end.
    { rewrite Fb, Fa by exact Hne. apply Hold. exact Hpoints. }
    match type of Hd with nth_error ?hd _ = _ =>
      destruct (transform_spec hd t points _ _ [(0, 0)] Hd) as (r2 & h2 & T2 & _ & O2 & _)
    end.
    { rewrite Fd, Fc by exact Hne. apply Hold. exact Hpoints. }
    exists r1, h1, r2, h2.
    exists ((0 + 5) * 3.5, (0 + -10) * 0.5), (0 * 3.5 + 5, 0 * 0.5 + -10).
    split; [exact T1|]. split; [exact O1|]. split; [exact T2|].
    split; [exact O2|].
    intros E. apply (f_equal fst) in E. cbn [fst] in E. lra.
Qed.

Lemma transform_registration_order_witness :
  nth_error [PointList [(3, 5)]] 0 = Some (PointList [(3, 5)])
  /\ exists h2 result h3,
       register (fst (PointTransformer [PointList [(3, 5)]]))
         [fun pt : Point => (fst pt + 5, snd pt + -10)]
         (snd (PointTransformer [PointList [(3, 5)]]))
       = Ok (fst (PointTransformer [PointList [(3, 5)]]), h2)
       /\ transform (fst (PointTransformer [PointList [(3, 5)]])) 0%nat h2
          = Ok (result, h3)
       /\ nth_error h3 result
          = Some (PointList
                    (map (apply_in_order
                            [fun pt : Point => (fst pt + 5, snd pt + -10)])
                       [(3, 5)])).
Proof.
  split; [reflexivity|].
  apply (proj1 transform_registration_order [PointList [(3, 5)]]
           [fun pt : Point => (fst pt + 5, snd pt + -10)] 0%nat [(3, 5)]).
  reflexivity.
Defined.

(** C8: [transform] on a pipeline and a list allocates one new list for
    its result and leaves every object of the heap as it was, the
    pipeline's [_fns] and the input list among them; so a second call, on
    the same or on another list, again returns that list's own image. *)
Theorem transform_mutates_nothing (h : heap) (self points_1 points_2 : addr)
    (fn : Point -> Point) (fns : list (Point -> Point))
    (items_1 items_2 : list Point) :
  nth_error h self = Some (Transformer (fn :: fns)) ->
  nth_error h points_1 = Some (PointList items_1) ->
  nth_error h points_2 = Some (PointList items_2) ->
  exists r1 h1 r2 h2,
    transform self points_1 h = Ok (r1, h1)
    /\ nth_error h r1 = None
    /\ (forall a x, nth_error h a = Some x -> nth_error h1 a = Some x)
    /\ nth_error h1 r1 = Some (PointList (map (apply_in_order (fn :: fns)) items_1))
    /\ transform self points_2 h1 = Ok (r2, h2)
    /\ nth_error h1 r2 = None
    /\ (forall a x, nth_error h1 a = Some x -> nth_error h2 a = Some x)
    /\ nth_error h2 r2 = Some (PointList (map (apply_in_order (fn :: fns)) items_2)).
Proof.
  intros Hself H1 H2.
  destruct (transform_spec h self points_1 fn fns items_1 Hself H1)
    as (r1 & h1 & T1 & N1 & O1 & F1).
  destruct (transform_spec h1 self points_2 fn fns items_2 (F1 _ _ Hself) (F1 _ _ H2))
    as (r2 & h2 & T2 & N2 & O2 & F2).
  exists r1, h1, r2, h2. repeat split; assumption.
Qed.

Lemma transform_mutates_nothing_witness :
  nth_error Notions.one_pipeline_two_lists 0
  = Some (Transformer [(fun pt => pt); Notions.translate_fn])
  /\ nth_error Notions.one_pipeline_two_lists 1 = Some (PointList [(0, 0); (3, 5)])
  /\ nth_error Notions.one_pipeline_two_lists 2 = Some (PointList [(4, 9)])
  /\ exists r1 h1 r2 h2,
       transform 0%nat 1%nat Notions.one_pipeline_two_lists = Ok (r1, h1)
       /\ nth_error Notions.one_pipeline_two_lists r1 = None
       /\ (forall a x, nth_error Notions.one_pipeline_two_lists a = Some x ->
                       nth_error h1 a = Some x)
       /\ nth_error h1 r1
          = Some (PointList
                    (map (apply_in_order [(fun pt => pt); Notions.translate_fn])
                       [(0, 0); (3, 5)]))
       /\ transform 0%nat 2%nat h1 = Ok (r2, h2)
       /\ nth_error h1 r2 = None
       /\ (forall a x, nth_error h1 a = Some x -> nth_error h2 a = Some x)
       /\ nth_error h2 r2
          = Some (PointList
                    (map (apply_in_order [(fun pt => pt); Notions.translate_fn])
                       [(4, 9)])).
Proof.
  split; [reflexivity|]. split; [reflexivity|]. split; [reflexivity|].
  apply (transform_mutates_nothing Notions.one_pipeline_two_lists 0%nat 1%nat 2%nat
           (fun pt => pt) [Notions.translate_fn] [(0, 0); (3, 5)] [(4, 9)]);
    reflexivity.
Defined.

(** ** Bezier curves *)

Lemma range_length (lo hi : Z) : length (range lo hi) = Z.to_nat (hi - lo).
Proof. unfold range. rewrite length_map, length_seq. reflexivity. Qed.

Lemma range_nth (lo hi : Z) (i : nat) (d : Z) :
  (i < Z.to_nat (hi - lo))%nat -> nth i (range lo hi) d = (lo + Z.of_nat i)%Z.
Proof.
  intros Hi. unfold range.
  rewrite (nth_indep _ d (lo + Z.of_nat 0)%Z) by (rewrite length_map, length_seq; exact Hi).
  rewrite (map_nth (fun k => (lo + Z.of_nat k)%Z)).
  rewrite seq_nth by exact Hi. reflexivity.
Qed.

(** The curve that [bezier_curve_points] returns for a positive step
    count: its points sit at the parameters [i * (1 / n_steps)]. *)
Lemma bezier_curve_points_nth (T1 C T2 : Point) (n : Z) :
  (1 <= n)%Z ->
  exists pts,
    BunchedScribble.bezier_curve_points T1 C T2 n = Ok pts
    /\ length pts = S (Z.to_nat n)
    /\ hd (0, 0) pts = T1
    /\ forall i, (i <= Z.to_nat n)%nat ->
         nth i pts (0, 0) = Notions.quadratic_bezier T1 C T2 (INR i / IZR n).
Proof.
  intros Hn. unfold BunchedScribble.bezier_curve_points.
  replace (n =? 0)%Z with false by (symmetry; apply Z.eqb_neq; lia).
  eexists. split; [reflexivity|].
  assert (Hnz : IZR n <> 0) by (apply not_0_IZR; lia).
  split; [|split; [reflexivity|]].
  - cbn [length]. rewrite length_map, range_length. f_equal. f_equal. lia.
  - intros [|i] Hi.
    + cbn [nth]. unfold Notions.quadratic_bezier. cbn [INR].
      destruct T1 as [x1 y1]. cbn [fst snd]. f_equal; field; exact Hnz.
    + cbn [nth].
      set (f := fun i0 : Z => _).
      rewrite (nth_indep _ (0, 0) (f 0%Z))
        by (rewrite length_map, range_length; lia).
      rewrite (map_nth f). rewrite range_nth by lia.
      unfold f, Notions.quadratic_bezier.
      replace (IZR (1 + Z.of_nat i)) with (INR (S i))
        by (rewrite INR_IZR_INZ; f_equal; lia).
      f_equal; field; exact Hnz.
Qed.

Lemma bezier_example_inside (a b c : R) :
  0 <= a -> 0 <= b -> 0 <= c -> 0 < a + c -> a + b + c = 1 ->
  (10 * a + 7 * b + 2 * c) ^ 2 + (5 * a + 20 * b + 14 * c) ^ 2 < 449.
Proof.
  intros Ha Hb Hc Hac Hs.
  assert (E : (10 * a + 7 * b + 2 * c) ^ 2 + (5 * a + 20 * b + 14 * c) ^ 2
              = (125 * a + 449 * b + 200 * c) * (a + b + c)
                - (a * b * 234 + a * c * 145 + b * c * 61)) by ring.
  rewrite E, Hs. nra.
Qed.

(** C4: for [n >= 1] the curve has [n + 1] points, the point of index [i]
    is the quadratic Bezier point at [t = i / n], the first point is [T1]
    and the last is [T2]; and for the terminals (10, 5), (2, 14) and the
    control point (7, 20) every point strictly between the first and the
    last is closer to the origin than the control point. *)
Theorem bezier_curve_points_spec (T1 C T2 : Point) (n : Z) :
  (1 <= n)%Z ->
  exists pts,
    BunchedScribble.bezier_curve_points T1 C T2 n = Ok pts
    /\ Z.of_nat (length pts) = (n + 1)%Z
    /\ (forall i, (i <= Z.to_nat n)%nat ->
          nth i pts (0, 0) = Notions.quadratic_bezier T1 C T2 (INR i / IZR n)
          /\ 0 <= INR i / IZR n <= 1)
    /\ nth 0 pts (0, 0) = T1
    /\ nth (Z.to_nat n) pts (0, 0) = T2
    /\ (T1 = (10, 5) -> C = (7, 20) -> T2 = (2, 14) ->
        forall i, (1 <= i < Z.to_nat n)%nat ->
          distance (0, 0) (nth i pts (0, 0)) < distance (0, 0) C).
Proof.
  intros Hn.
  destruct (bezier_curve_points_nth T1 C T2 n Hn) as (pts & Hpts & Hlen & Hhd & Hnth).
  assert (Hpos : 0 < IZR n) by (apply IZR_lt; lia).
  assert (Hnat : IZR n = INR (Z.to_nat n))
    by (rewrite INR_IZR_INZ; f_equal; lia).
  exists pts. split; [exact Hpts|]. split; [rewrite Hlen; lia|].
  split; [|split; [|split]].
  - intros i Hi. split; [apply Hnth; exact Hi|].
    pose proof (pos_INR i) as Hi0. apply le_INR in Hi. rewrite <- Hnat in Hi.
    split.
    + apply Rmult_le_pos; [exact Hi0|]. left. apply Rinv_0_lt_compat. exact Hpos.
    + apply (Rmult_le_reg_r (IZR n)); [exact Hpos|]. unfold Rdiv.
      rewrite Rmult_assoc, Rinv_l by lra. lra.
  - destruct pts; [discriminate|]. exact Hhd.
  - rewrite Hnth by lia. rewrite <- Hnat. unfold Notions.quadratic_bezier.
    destruct T2 as [x2 y2]. cbn [fst snd]. f_equal; field; lra.
  - intros -> -> -> i Hi. rewrite Hnth by lia.
    unfold distance, Notions.quadratic_bezier. cbn [fst snd].
    set (t := INR i / IZR n).
    assert (Ht : 0 < t < 1).
    { unfold t. destruct Hi as [Hi1 Hi2].
      apply lt_INR in Hi2. rewrite <- Hnat in Hi2.
      assert (0 < INR i) by (apply lt_0_INR; lia).
      split.
      - apply Rmult_lt_0_compat; [assumption|]. apply Rinv_0_lt_compat. exact Hpos.
      - apply (Rmult_lt_reg_r (IZR n)); [exact Hpos|]. unfold Rdiv.
        rewrite Rmult_assoc, Rinv_l by lra. lra. }
    clearbody t. apply sqrt_lt_1_alt. split.
    + apply Rplus_le_le_0_compat; apply pow2_ge_0.
    + replace ((7 - 0) ^ 2 + (20 - 0) ^ 2) with 449 by ring.
      replace (((1 - t) ^ 2 * 10 + 2 * (1 - t) * t * 7 + t ^ 2 * 2 - 0) ^ 2
               + ((1 - t) ^ 2 * 5 + 2 * (1 - t) * t * 20 + t ^ 2 * 14 - 0) ^ 2)
        with ((10 * (1 - t) ^ 2 + 7 * (2 * (1 - t) * t) + 2 * t ^ 2) ^ 2
              + (5 * (1 - t) ^ 2 + 20 * (2 * (1 - t) * t) + 14 * t ^ 2) ^ 2) by ring.
      apply bezier_example_inside; nra.
Qed.

Lemma bezier_curve_points_spec_witness :
  (1 <= 10)%Z
  /\ exists pts,
       BunchedScribble.bezier_curve_points (10, 5) (7, 20) (2, 14) 10 = Ok pts
       /\ Z.of_nat (length pts) = (10 + 1)%Z
       /\ (forall i, (i <= Z.to_nat 10)%nat ->
             nth i pts (0, 0)
             = Notions.quadratic_bezier (10, 5) (7, 20) (2, 14) (INR i / IZR 10)
             /\ 0 <= INR i / IZR 10 <= 1)
       /\ nth 0 pts (0, 0) = (10, 5)
       /\ nth (Z.to_nat 10) pts (0, 0) = (2, 14)
       /\ ((10, 5) = (10, 5) -> (7, 20) = (7, 20) -> (2, 14) = (2, 14) ->
           forall i, (1 <= i < Z.to_nat 10)%nat ->
             distance (0, 0) (nth i pts (0, 0)) < distance (0, 0) (7, 20)).
Proof.
  split; [lia|].
  apply (bezier_curve_points_spec (10, 5) (7, 20) (2, 14) 10). lia.
Defined.

(** ** The pool of pending points *)

Lemma fill_pool_spec (self : Scribble) (bound : nat) :
  forall point_pool angle radius,
    (3 <= length point_pool + bound)%nat ->
    exists extra angle' radius',
      BunchedScribble.fill_pool self bound point_pool angle radius
      = (point_pool ++ extra, angle', radius')
      /\ length (point_pool ++ extra) = Nat.max 3 (length point_pool).
Proof.
  induction bound as [|bound IH]; intros pool angle radius Hlen.
  - exists [], angle, radius. cbn [BunchedScribble.fill_pool].
    rewrite app_nil_r. split; [reflexivity|lia].
  - cbn [BunchedScribble.fill_pool].
    destruct (length pool <? 3)%nat eqn:Hlt.
    + apply Nat.ltb_lt in Hlt.
      destruct (LinearScribble._get_new_point self angle radius)
        as [[new_point angle1] radius1].
      destruct (IH (pool ++ [new_point]) angle1 radius1)
        as (extra & angle' & radius' & Hfill & Hlen').
      { rewrite length_app. cbn [length]. lia. }
      exists (new_point :: extra), angle', radius'.
      rewrite <- app_assoc in Hfill, Hlen'. cbn [app] in Hfill, Hlen'.
      split; [exact Hfill|]. rewrite Hlen'. rewrite length_app. cbn [length]. lia.
    + apply Nat.ltb_ge in Hlt.
      exists [], angle, radius. rewrite app_nil_r. split; [reflexivity|lia].
Qed.

(** [next_triple] never fails: the refilled pool has three points or
    more; the points that were pending come first, in order. *)
Lemma next_triple_spec (self : Scribble) (st : loop_state) :
  exists terminus_1 control terminus_2 rest extra angle' radius',
    BunchedScribble.next_triple self st
    = Ok (terminus_1, control, terminus_2,
          {| st_length := st_length st; st_radius := radius'; st_angle := angle';
             st_point_pool := terminus_2 :: rest; st_points := st_points st |})
    /\ st_point_pool st ++ extra = terminus_1 :: control :: terminus_2 :: rest
    /\ length (terminus_1 :: control :: terminus_2 :: rest)
       = Nat.max 3 (length (st_point_pool st)).
Proof.
  unfold BunchedScribble.next_triple.
  destruct (fill_pool_spec self 3 (st_point_pool st) (st_angle st) (st_radius st))
    as (extra & angle' & radius' & Hfill & Hlen); [lia|].
  rewrite Hfill.
  destruct (st_point_pool st ++ extra) as [|t1 [|c [|t2 rest]]] eqn:Epool;
    try (cbn [length] in Hlen; lia).
  exists t1, c, t2, rest, extra, angle', radius'. auto.
Qed.

(** ** Curves returned by [bezier_curve_points] *)

Lemma min_steps_ge (steps : Z) : (10 <= BunchedScribble._min_steps steps)%Z.
Proof. unfold BunchedScribble._min_steps, BunchedScribble.MINIMUM_STEPS. lia. Qed.

Lemma last_point_nth (l : list Point) :
  last_point l = nth (length l - 1) l (0, 0).
Proof.
  unfold last_point. induction l as [|a [|b l] IH]; try reflexivity.
  change (last (a :: b :: l) (0, 0)) with (last (b :: l) (0, 0)).
  rewrite IH.
  replace (length (a :: b :: l) - 1)%nat with (S (length (b :: l) - 1))
    by (cbn [length]; lia).
  reflexivity.
Qed.

(** The curve starts at its first terminal and ends at its second. *)
Lemma bezier_curve_ends (T1 C T2 : Point) (n : Z) :
  (1 <= n)%Z ->
  exists tail,
    BunchedScribble.bezier_curve_points T1 C T2 n = Ok (T1 :: tail)
    /\ length (T1 :: tail) = S (Z.to_nat n)
    /\ last_point (T1 :: tail) = T2.
Proof.
  intros Hn.
  destruct (bezier_curve_points_nth T1 C T2 n Hn) as (pts & Hpts & Hlen & Hhd & Hnth).
  destruct pts as [|p tail]; [discriminate|]. cbn [hd] in Hhd. subst p.
  exists tail. split; [exact Hpts|]. split; [exact Hlen|].
  rewrite last_point_nth, Hlen. replace (S (Z.to_nat n) - 1)%nat with (Z.to_nat n) by lia.
  rewrite Hnth by lia.
  assert (Hpos : 0 < IZR n) by (apply IZR_lt; lia).
  replace (INR (Z.to_nat n)) with (IZR n) by (rewrite INR_IZR_INZ; f_equal; lia).
  unfold Notions.quadratic_bezier. destruct T2 as [x2 y2]. cbn [fst snd].
  f_equal; field; lra.
Qed.

(** ** Paths that continue one another *)

Lemma path_length_extend (l : list Point) (q : Point) :
  path_length l <= path_length (l ++ [q]).
Proof.
  destruct l as [|a l]; [cbn; lra|].
  assert (Hne : a :: l <> []) by discriminate.
  rewrite (snoc_last_point (a :: l) Hne) at 2.
  rewrite path_length_snoc. rewrite <- (snoc_last_point (a :: l) Hne).
  pose proof (distance_nonneg (last_point (a :: l)) q). lra.
Qed.

(** A curve that starts where the pool says the next one starts adds its
    own length to the tracked length. *)
Lemma path_length_join (points pool extra : list Point) (len : R)
    (t1 : Point) (others tail : list Point) :
  (points = [] /\ len = 0)
  \/ (exists q rest, pool = q :: rest /\ points <> []
                     /\ path_length (points ++ [q]) = len) ->
  pool ++ extra = t1 :: others ->
  path_length (points ++ t1 :: tail) = len + path_length (t1 :: tail).
Proof.
  intros [[-> ->]|(q & rest & -> & Hne & Hlen)] Hpool.
  - cbn [app]. lra.
  - cbn [app] in Hpool. injection Hpool as -> _.
    rewrite path_length_app. lra.
Qed.

Lemma app_nonempty_r {A : Type} (l1 l2 : list A) : l2 <> [] -> l1 ++ l2 <> [].
Proof. destruct l1, l2; cbn; congruence. Qed.

(** ** The main loop of the curve generators *)

Section CurveLoop.

Variable max_length : R.
Variable next : loop_state -> outcome (loop_state * list Point * R * bool).
Variable loop : nat -> loop_state -> outcome loop_state.

Hypothesis loop_unfold : forall fuel st,
  loop fuel st
  = if Rltb (st_length st) max_length then
      match fuel with
      | O => OutOfFuel
      | S fuel' =>
          '(st, new_points, curve_length, stop) <- next st ;;
          let st := add_curve st curve_length new_points in
          if stop then Ok st else loop fuel' st
      end
    else Ok st.

Hypothesis next_ok : forall st,
  Notions.loop_invariant max_length st ->
  st_length st < max_length ->
  exists st1 new_points curve_length stop,
    next st = Ok (st1, new_points, curve_length, stop)
    /\ st_points (add_curve st1 curve_length new_points) <> []
    /\ if stop : bool
       then path_length (st_points (add_curve st1 curve_length new_points))
            <= max_length
       else Notions.loop_invariant max_length
              (add_curve st1 curve_length new_points).

(** From a state that satisfies the invariant the loop never raises, and
    what it returns is a non-empty path within the budget. *)
Lemma loop_result (fuel : nat) :
  forall st,
    Notions.loop_invariant max_length st ->
    st_points st <> [] \/ st_length st < max_length ->
    loop fuel st = OutOfFuel
    \/ exists st', loop fuel st = Ok st'
                   /\ st_points st' <> []
                   /\ path_length (st_points st') <= max_length.
Proof.
  induction fuel as [|fuel IH]; intros st Hinv Hstart; rewrite loop_unfold;
    destruct (Rltb_spec (st_length st) max_length) as [Hlt|Hge]; auto.
  1,3: right; exists st; split; [reflexivity|];
       destruct Hstart as [Hne|Hlt]; [|contradiction];
       split; [exact Hne|];
       destruct Hinv as [Hle [[Hnil _]|(q & rest & _ & _ & Hlen)]];
       [contradiction|];
       pose proof (path_length_extend (st_points st) q); lra.
  destruct (next_ok st Hinv Hlt) as (st1 & seg & cl & stop & Hnext & Hne & Hpost).
  rewrite Hnext. cbn [bind]. destruct stop.
  - right. eexists. split; [reflexivity|]. split; assumption.
  - apply IH; [exact Hpost|]. left. exact Hne.
Qed.

End CurveLoop.

Lemma last_point_app (l1 l2 : list Point) :
  l2 <> [] -> last_point (l1 ++ l2) = last_point l2.
Proof.
  intros Hne. unfold last_point. induction l1 as [|a l1 IH]; [reflexivity|].
  cbn [app]. destruct (l1 ++ l2) eqn:E.
  - apply app_eq_nil in E. destruct E. contradiction.
  - rewrite <- IH. reflexivity.
Qed.

(** ** One pass of [BunchedScribble]'s loop *)

Lemma firstn_cons_nonempty {A : Type} (k : nat) (a : A) (l : list A) :
  firstn k (a :: l) <> [] -> exists l', firstn k (a :: l) = a :: l'.
Proof. destruct k; cbn; [congruence|]. intros _. eexists. reflexivity. Qed.

Lemma bunched_next_ok (self : Scribble) (n_steps : Z) (max_length : R)
    (st : loop_state) :
  (1 <= n_steps)%Z ->
  Notions.loop_invariant max_length st ->
  st_length st < max_length ->
  exists st1 new_points curve_length stop,
    BunchedScribble.next_curve self n_steps max_length st
    = Ok (st1, new_points, curve_length, stop)
    /\ st_points (add_curve st1 curve_length new_points) <> []
    /\ if stop : bool
       then path_length (st_points (add_curve st1 curve_length new_points))
            <= max_length
       else Notions.loop_invariant max_length
              (add_curve st1 curve_length new_points).
Proof.
  intros Hn [Hle Hinv] Hlt. unfold BunchedScribble.next_curve.
  destruct (next_triple_spec self st)
    as (t1 & c & t2 & rest & extra & angle' & radius' & Htriple & Hpool & _).
  rewrite Htriple. cbn [bind].
  destruct (bezier_curve_ends t1 c t2 n_steps Hn) as (tail & Hcurve & _ & Hlast).
  rewrite Hcurve. cbn [bind]. rewrite total_length_path. cbn [bind st_length].
  pose proof (path_length_join _ _ _ _ _ _ tail Hinv Hpool) as Hjoin.
  destruct (Rltb_spec (max_length - st_length st) (path_length (t1 :: tail)))
    as [Hlong|Hfits].
  - destruct (shorten_curve_spec (t1 :: tail) (path_length (t1 :: tail))
                (max_length - st_length st)) as (k & Hk & Hfit & Hne);
      [reflexivity|lra|].
    rewrite Hk.
    destruct (firstn_cons_nonempty k t1 tail) as (tail' & Ek);
      [apply Hne; discriminate|].
    rewrite Ek in *.
    eexists _, _, _, true. split; [reflexivity|]. cbn [add_curve st_points].
    split; [apply app_nonempty_r; discriminate|].
    rewrite (path_length_join _ _ _ _ _ _ tail' Hinv Hpool). lra.
  - eexists _, _, _, false. split; [reflexivity|]. cbn [add_curve st_points].
    split; [apply app_nonempty_r; discriminate|].
    unfold Notions.loop_invariant. cbn [add_curve st_points st_length st_point_pool].
    split; [lra|]. right. exists t2, rest. split; [reflexivity|].
    split; [apply app_nonempty_r; discriminate|].
    assert (Hne : st_points st ++ t1 :: tail <> [])
      by (apply app_nonempty_r; discriminate).
    rewrite (snoc_last_point _ Hne) at 1. rewrite path_length_snoc.
    rewrite <- (snoc_last_point _ Hne).
    replace (last_point (st_points st ++ t1 :: tail)) with t2.
    + rewrite distance_same. lra.
    + rewrite last_point_app by discriminate. exact (eq_sym Hlast).
Qed.

(** ** One pass of [CurvyScribble]'s loop *)

Lemma new_terminus_index_bounds (n_steps : Z) :
  (10 <= n_steps)%Z ->
  (8 <= CurvyScribble.new_terminus_index n_steps < n_steps)%Z.
Proof.
  intros Hn. unfold CurvyScribble.new_terminus_index.
  rewrite Z.quot_div_nonneg by lia.
  pose proof (Z.div_mod ((n_steps + 1) * 5) 6 ltac:(lia)) as Hdiv.
  pose proof (Z.mod_pos_bound ((n_steps + 1) * 5) 6 ltac:(lia)) as Hmod.
  lia.
Qed.

(** The cut curve: the points of index 0 to [new_terminus_index], at
    least nine of them. *)
Lemma slice_to_cut (n_steps : Z) (curve : list Point) :
  (10 <= n_steps)%Z ->
  length curve = S (Z.to_nat n_steps) ->
  slice_to curve (CurvyScribble.new_terminus_index n_steps + 1)
  = firstn (S (Z.to_nat (CurvyScribble.new_terminus_index n_steps))) curve
  /\ length (slice_to curve (CurvyScribble.new_terminus_index n_steps + 1))
     = S (Z.to_nat (CurvyScribble.new_terminus_index n_steps)).
Proof.
  intros Hn Hlen. pose proof (new_terminus_index_bounds n_steps Hn) as Hidx.
  unfold slice_to.
  replace (CurvyScribble.new_terminus_index n_steps + 1 <? 0)%Z with false
    by (symmetry; apply Z.ltb_ge; lia).
  replace (Z.to_nat (CurvyScribble.new_terminus_index n_steps + 1))
    with (S (Z.to_nat (CurvyScribble.new_terminus_index n_steps))) by lia.
  split; [reflexivity|]. rewrite length_firstn, Hlen. lia.
Qed.

Lemma curvy_next_ok (self : Scribble) (n_steps : Z) (max_length : R)
    (st : loop_state) :
  (10 <= n_steps)%Z ->
  Notions.loop_invariant max_length st ->
  st_length st < max_length ->
  exists st1 new_points curve_length stop,
    CurvyScribble.next_curve self n_steps max_length st
    = Ok (st1, new_points, curve_length, stop)
    /\ st_points (add_curve st1 curve_length new_points) <> []
    /\ if stop : bool
       then path_length (st_points (add_curve st1 curve_length new_points))
            <= max_length
       else Notions.loop_invariant max_length
              (add_curve st1 curve_length new_points).
Proof.
  intros Hn [Hle Hinv] Hlt. unfold CurvyScribble.next_curve.
  destruct (next_triple_spec self st)
    as (t1 & c & t2 & rest & extra & angle' & radius' & Htriple & Hpool & _).
  rewrite Htriple. cbn [bind].
  destruct (bezier_curve_ends t1 c t2 n_steps) as (tail & Hcurve & Hlen & _); [lia|].
  rewrite Hcurve. cbn [bind].
  destruct (slice_to_cut n_steps (t1 :: tail) Hn Hlen) as [Hcut Hcutlen].
  pose proof (new_terminus_index_bounds n_steps Hn) as Hidx.
  rewrite Hcut in *. cbn [firstn] in *.
  remember (firstn (Z.to_nat (CurvyScribble.new_terminus_index n_steps)) tail)
    as cut_tail eqn:Etail.
  assert (Htail : cut_tail <> []).
  { intros E. rewrite E in Hcutlen. cbn [length] in Hcutlen. lia. }
  clear Hcut Etail.
  rewrite total_length_path. cbn [bind st_length].
  pose proof (path_length_join _ _ _ _ _ _ cut_tail Hinv Hpool) as Hjoin.
  destruct (Rltb_spec (max_length - st_length st) (path_length (t1 :: cut_tail)))
    as [Hlong|Hfits].
  - destruct (shorten_curve_spec (t1 :: cut_tail) (path_length (t1 :: cut_tail))
                (max_length - st_length st)) as (k & Hk & Hfit & Hne);
      [reflexivity|lra|].
    rewrite Hk.
    destruct (firstn_cons_nonempty k t1 cut_tail) as (tail' & Ek);
      [apply Hne; discriminate|].
    rewrite Ek in *.
    eexists _, _, _, true. split; [reflexivity|]. cbn [add_curve st_points].
    split; [apply app_nonempty_r; discriminate|].
    rewrite (path_length_join _ _ _ _ _ _ tail' Hinv Hpool). lra.
  - eexists _, _, _, false. split; [reflexivity|]. cbn [add_curve st_points].
    assert (Hpop : removelast (t1 :: cut_tail) <> [])
      by (destruct cut_tail; [contradiction|discriminate]).
    split; [apply app_nonempty_r; exact Hpop|].
    unfold Notions.loop_invariant. cbn [add_curve st_points st_length st_point_pool].
    split; [lra|]. right. exists (last_point (t1 :: cut_tail)), (t2 :: rest).
    split; [reflexivity|]. split; [apply app_nonempty_r; exact Hpop|].
    rewrite <- app_assoc. rewrite <- snoc_last_point by discriminate.
    exact Hjoin.
Qed.

(** ** The loop of [LinearScribble] *)

Lemma linear_loop_result (self : Scribble) (max_length : R) (fuel : nat) :
  forall points length radius angle,
    length <= max_length ->
    length = path_length points ->
    points <> [] \/ length < max_length ->
    LinearScribble.get_points_while self max_length fuel points length radius angle
    = OutOfFuel
    \/ exists points',
         LinearScribble.get_points_while self max_length fuel points length radius angle
         = Ok points'
         /\ points' <> []
         /\ path_length points' <= max_length.
Proof.
  induction fuel as [|fuel IH]; intros points len radius angle Hle Hlen Hstart;
    cbn [LinearScribble.get_points_while];
    destruct (Rltb_spec len max_length) as [Hlt|Hge]; auto.
  1,3: right; exists points; split; [reflexivity|];
       destruct Hstart as [Hne|Hlt]; [|contradiction];
       split; [exact Hne|lra].
  unfold LinearScribble._get_new_point.
  set (new_point := (_, _) : Point).
  destruct (0 <? length points)%nat eqn:Hpos.
  - apply length_pos_nonempty in Hpos.
    destruct (Rltb_spec max_length (len + distance (last_point points) new_point))
      as [Hover|Hfits].
    + right. exists points. split; [reflexivity|]. split; [exact Hpos|lra].
    + apply IH.
      * lra.
      * rewrite (snoc_last_point points Hpos) at 2. rewrite path_length_snoc.
        rewrite <- (snoc_last_point points Hpos). lra.
      * left. apply app_nonempty_r. discriminate.
  - apply length_zero_empty in Hpos. subst points. cbn [app].
    apply IH; [lra|exact Hlen|left; discriminate].
Qed.

(** ** [get_points], all three generators *)

Lemma initial_state_invariant (initial_radius max_length : R) :
  0 < max_length ->
  Notions.loop_invariant max_length (Notions.initial_state initial_radius).
Proof. intros H. split; cbn; [lra|]. left. auto. Qed.

(** With valid arguments [get_points] raises nothing: either the bound
    on the passes is hit, or the result is a non-empty path whose length
    is within [max_length]. *)
Lemma get_points_valid (g : generator) (self : Scribble)
    (initial_radius max_length : R) (steps : Z) (fuel : nat) :
  0 < initial_radius -> 0 < max_length ->
  get_points g self initial_radius max_length steps fuel = OutOfFuel
  \/ exists points,
       get_points g self initial_radius max_length steps fuel = Ok points
       /\ points <> []
       /\ path_length points <= max_length.
Proof.
  intros Hr Hl. pose proof (min_steps_ge steps) as Hsteps.
  pose proof (initial_state_invariant initial_radius max_length Hl) as Hinit.
  destruct g; cbn [get_points].
  - unfold LinearScribble.get_points.
    rewrite (Rleb_false initial_radius 0 Hr), (Rleb_false max_length 0 Hl).
    apply linear_loop_result; [lra|reflexivity|right; exact Hl].
  - unfold BunchedScribble.get_points.
    rewrite (Rleb_false initial_radius 0 Hr), (Rleb_false max_length 0 Hl).
    cbv zeta.
    destruct (loop_result max_length
                (BunchedScribble.next_curve self (BunchedScribble._min_steps steps) max_length)
                (BunchedScribble.get_points_while self (BunchedScribble._min_steps steps) max_length))
      with (fuel := fuel) (st := Notions.initial_state initial_radius)
      as [Hout|(st' & Hok & Hne & Hlen)].
    + intros [|f] st; reflexivity.
    + intros st. apply bunched_next_ok. lia.
    + exact Hinit.
    + right. exact Hl.
    + left. unfold Notions.initial_state in Hout. rewrite Hout. reflexivity.
    + right. exists (st_points st'). unfold Notions.initial_state in Hok.
      rewrite Hok. cbn [bind]. auto.
  - unfold CurvyScribble.get_points.
    rewrite (Rleb_false initial_radius 0 Hr), (Rleb_false max_length 0 Hl).
    cbv zeta.
    destruct (loop_result max_length
                (CurvyScribble.next_curve self (BunchedScribble._min_steps steps) max_length)
                (CurvyScribble.get_points_while self (BunchedScribble._min_steps steps) max_length))
      with (fuel := fuel) (st := Notions.initial_state initial_radius)
      as [Hout|(st' & Hok & Hne & Hlen)].
    + intros [|f] st; reflexivity.
    + intros st. apply curvy_next_ok. exact Hsteps.
    + exact Hinit.
    + right. exact Hl.
    + left. unfold Notions.initial_state in Hout. rewrite Hout. reflexivity.
    + right. exists (st_points st'). unfold Notions.initial_state in Hok.
      rewrite Hok. cbn [bind]. auto.
Qed.


(** In exact arithmetic, whatever the generator, the step functions and
    the bound on the passes, a point sequence returned by [get_points] for
    a positive radius and a positive [max_length] has [total_length] at
    most [max_length]. *)
Theorem get_points_within_max_length (g : generator) (self : Scribble)
    (initial_radius max_length : R) (steps : Z) (fuel : nat)
    (points : list Point) :
  0 < initial_radius -> 0 < max_length ->
  get_points g self initial_radius max_length steps fuel = Ok points ->
  exists len, total_length points = Ok len /\ len <= max_length.
Proof.
  intros Hr Hl Hrun.
  destruct (get_points_valid g self initial_radius max_length steps fuel Hr Hl)
    as [Hout|(points' & Hok & Hne & Hlen)]; [congruence|].
  rewrite Hok in Hrun. injection Hrun as <-.
  destruct points' as [|p rest]; [contradiction|].
  exists (path_length (p :: rest)). split; [apply total_length_path|exact Hlen].
Qed.



(** ** Runs on the straight walk *)

Lemma straight_new_point (radius : R) :
  LinearScribble._get_new_point Notions.straight_walk 0 radius
  = ((radius, 0), 0, radius + 1).
Proof.
  unfold LinearScribble._get_new_point. cbn.
  replace (0 * LinearScribble.RADIANS) with 0 by ring.
  rewrite cos_0, sin_0. repeat f_equal; ring.
Qed.

(** The passes of [LinearScribble]'s loop, one at a time. *)
Lemma linear_exit (self : Scribble) (max_length : R) (fuel : nat)
    (points : list Point) (length radius angle : R) :
  max_length <= length ->
  LinearScribble.get_points_while self max_length fuel points length radius angle
  = Ok points.
Proof.
  intros H. destruct fuel; cbn [LinearScribble.get_points_while];
    rewrite Rltb_false by exact H; reflexivity.
Qed.

Lemma linear_first (self : Scribble) (max_length : R) (fuel : nat)
    (length radius angle : R) :
  length < max_length ->
  LinearScribble.get_points_while self max_length (S fuel) [] length radius angle
  = LinearScribble.get_points_while self max_length fuel
      [fst (fst (LinearScribble._get_new_point self angle radius))] length
      (snd (LinearScribble._get_new_point self angle radius))
      (snd (fst (LinearScribble._get_new_point self angle radius))).
Proof.
  intros H. cbn [LinearScribble.get_points_while].
  rewrite Rltb_true by exact H. reflexivity.
Qed.

Lemma linear_accept (self : Scribble) (max_length : R) (fuel : nat)
    (points : list Point) (length radius angle : R) :
  length < max_length ->
  points <> [] ->
  length
  + distance (last_point points)
      (fst (fst (LinearScribble._get_new_point self angle radius)))
  <= max_length ->
  LinearScribble.get_points_while self max_length (S fuel) points length radius angle
  = LinearScribble.get_points_while self max_length fuel
      (points ++ [fst (fst (LinearScribble._get_new_point self angle radius))])
      (length
       + distance (last_point points)
           (fst (fst (LinearScribble._get_new_point self angle radius))))
      (snd (LinearScribble._get_new_point self angle radius))
      (snd (fst (LinearScribble._get_new_point self angle radius))).
Proof.
  intros H Hne Hfit. cbn [LinearScribble.get_points_while].
  rewrite Rltb_true by exact H.
  apply length_pos_nonempty in Hne.
  unfold LinearScribble._get_new_point in *. cbn [fst snd] in *.
  rewrite Hne. rewrite Rltb_false by exact Hfit. reflexivity.
Qed.

Lemma linear_straight_run :
  LinearScribble.get_points Notions.straight_walk 1 1 2 = Ok [(1, 0); (2, 0)].
Proof.
  unfold LinearScribble.get_points.
  rewrite (Rleb_false 1 0) by lra.
  rewrite linear_first by lra. rewrite straight_new_point. cbn [fst snd].
  rewrite linear_accept;
    rewrite ?straight_new_point; cbn [fst snd last_point last];
    rewrite ?distance_horizontal; try lra; try discriminate.
  rewrite linear_exit by lra. cbn [app]. repeat f_equal; ring.
Qed.

Lemma get_points_within_max_length_witness :
  0 < 1 /\ 0 < 1
  /\ get_points Linear Notions.straight_walk 1 1 10 2 = Ok [(1, 0); (2, 0)]
  /\ exists len, total_length [(1, 0); (2, 0)] = Ok len /\ len <= 1.
Proof.
  split; [lra|]. split; [lra|]. split; [exact linear_straight_run|].
  apply (get_points_within_max_length Linear Notions.straight_walk 1 1 10 2);
    [lra|lra|exact linear_straight_run].
Defined.

(** ** The budget over binary64 numbers *)

Module Rounded.

Import PrimFloat.

Local Open Scope float_scope.

Section AtAngle0.

Variables libm libm' : Binary64.Libm.
Variable self : Binary64.Scribble.

Hypothesis cos_same : Binary64.cos libm 0 = Binary64.cos libm' 0.
Hypothesis sin_same : Binary64.sin libm 0 = Binary64.sin libm' 0.
Hypothesis angle_fixed : Binary64.angle_modifier_fn self 0 = 0.

Lemma binary64_new_point_at_0 (radius : float) :
  Binary64.LinearScribble._get_new_point libm self 0 radius
  = Binary64.LinearScribble._get_new_point libm' self 0 radius
  /\ snd (fst (Binary64.LinearScribble._get_new_point libm' self 0 radius)) = 0.
Proof.
  unfold Binary64.LinearScribble._get_new_point. cbv zeta.
  change (0 * Binary64.LinearScribble.RADIANS) with 0.
  rewrite cos_same, sin_same. split; [reflexivity|exact angle_fixed].
Qed.

Lemma binary64_fill_pool_at_0 (bound : nat) :
  forall point_pool radius,
    Binary64.BunchedScribble.fill_pool libm self bound point_pool 0 radius
    = Binary64.BunchedScribble.fill_pool libm' self bound point_pool 0 radius
    /\ snd (fst (Binary64.BunchedScribble.fill_pool libm' self bound
                    point_pool 0 radius)) = 0.
Proof.
  induction bound as [|bound IH]; intros pool radius;
    cbn [Binary64.BunchedScribble.fill_pool]; [split; reflexivity|].
  destruct (length pool <? 3)%nat; [|split; reflexivity].
  destruct (binary64_new_point_at_0 radius) as [-> Hangle].
  destruct (Binary64.LinearScribble._get_new_point libm' self 0 radius)
    as [[new_point angle1] radius1]. cbn [fst snd] in Hangle. subst angle1.
  apply IH.
Qed.

Lemma binary64_next_curve_at_0 (n_steps : Z) (max_length : float)
    (st : Binary64.loop_state) :
  Binary64.st_angle st = 0 ->
  Binary64.BunchedScribble.next_curve libm self n_steps max_length st
  = Binary64.BunchedScribble.next_curve libm' self n_steps max_length st
  /\ forall st' new_points curve_length stop,
       Binary64.BunchedScribble.next_curve libm' self n_steps max_length st
       = Ok (st', new_points, curve_length, stop) ->
       Binary64.st_angle st' = 0.
Proof.
  intros Hangle.
  unfold Binary64.BunchedScribble.next_curve, Binary64.BunchedScribble.next_triple.
  rewrite Hangle.
  destruct (binary64_fill_pool_at_0 3 (Binary64.st_point_pool st)
              (Binary64.st_radius st)) as [-> Hpool].
  destruct (Binary64.BunchedScribble.fill_pool libm' self 3 _ 0 _)
    as [[pool angle] radius]. cbn [fst snd] in Hpool. subst angle.
  split; [reflexivity|].
  destruct pool as [|t1 [|c [|t2 rest]]]; cbn [bind]; try discriminate.
  destruct (Binary64.BunchedScribble.bezier_curve_points t1 c t2 n_steps)
    as [curve| |]; cbn [bind]; try discriminate.
  destruct (Binary64.total_length curve) as [len| |]; cbn [bind];
    try discriminate.
  cbn [Binary64.st_length].
  destruct (ltb _ len).
  - destruct (Binary64.BunchedScribble._shorten_curve curve len _).
    intros st' pts cl stop [= <- _ _ _]. reflexivity.
  - intros st' pts cl stop [= <- _ _ _]. reflexivity.
Qed.

Lemma binary64_loop_at_0 (n_steps : Z) (max_length : float)
    (fuel : nat) :
  forall st,
    Binary64.st_angle st = 0 ->
    Binary64.BunchedScribble.get_points_while libm self n_steps max_length fuel st
    = Binary64.BunchedScribble.get_points_while libm' self n_steps max_length
        fuel st.
Proof.
  induction fuel as [|fuel IH]; intros st Hangle;
    cbn [Binary64.BunchedScribble.get_points_while]; [reflexivity|].
  destruct (ltb (Binary64.st_length st) max_length); [|reflexivity].
  destruct (binary64_next_curve_at_0 n_steps max_length st Hangle) as [-> Hnext].
  destruct (Binary64.BunchedScribble.next_curve libm' self n_steps max_length st)
    as [[[[st' new_points] curve_length] stop]| |]; cbn [bind]; try reflexivity.
  destruct stop; [reflexivity|].
  apply IH. cbn [Binary64.add_curve Binary64.st_angle].
  apply (Hnext st' new_points curve_length false eq_refl).
Qed.

Lemma binary64_get_points_at_0 (initial_radius max_length : float)
    (steps : Z) (fuel : nat) :
  Binary64.BunchedScribble.get_points libm self initial_radius max_length
    steps fuel
  = Binary64.BunchedScribble.get_points libm' self initial_radius max_length
      steps fuel.
Proof.
  unfold Binary64.BunchedScribble.get_points.
  destruct (leb initial_radius 0); [reflexivity|].
  destruct (leb max_length 0); [reflexivity|]. cbv zeta.
  rewrite binary64_loop_at_0 by reflexivity. reflexivity.
Qed.

End AtAngle0.

Lemma binary64_halving_run (fuel : nat) :
  Binary64.BunchedScribble.get_points Binary64.right_at_0 Binary64.halving_walk
    15 0x1p-53 10 (S fuel)
  = Ok [].
Proof. vm_compute. reflexivity. Qed.

Lemma binary64_stepping_run (fuel : nat) :
  Binary64.BunchedScribble.get_points Binary64.right_at_0 Binary64.stepping_walk
    0x1p53 (0x1p53 + 24) 16 (S (S fuel))
  = Ok (Binary64.level_points 0x1p53 (- 0x1p49)
        ++ Binary64.level_points 0 1.5).
Proof. destruct fuel; vm_compute; reflexivity. Qed.

(** C1: over binary64 numbers [BunchedScribble.get_points] breaks the
    budget on valid arguments.  With a step function that halves the
    radius, from radius 15 and with [max_length = 2 ** -53], the last curve
    is shortened until no point is left and the empty list is returned, of
    which [total_length] raises.  With steps of 16 from radius [2 ** 53]
    and [max_length = 2 ** 53 + 24], two curves are returned, sixteen
    segments of [2 ** 49] and sixteen of 1.5, and [total_length] of the
    result is [2 ** 53 + 32]. *)
Theorem bunched_get_points_breaks_max_length (libm : Binary64.Libm) (fuel : nat) :
  Binary64.cos libm 0 = 1 ->
  Binary64.sin libm 0 = 0 ->
  (ltb 0 15 = true /\ ltb 0 0x1p-53 = true
   /\ Binary64.BunchedScribble.get_points libm Binary64.halving_walk
        15 0x1p-53 10 (S fuel) = Ok []
   /\ Binary64.total_length [] = Raise IndexError)
  /\ (ltb 0 0x1p53 = true /\ ltb 0 (0x1p53 + 24) = true
      /\ Binary64.BunchedScribble.get_points libm Binary64.stepping_walk
           0x1p53 (0x1p53 + 24) 16 (S (S fuel))
         = Ok (Binary64.level_points 0x1p53 (- 0x1p49)
               ++ Binary64.level_points 0 1.5)
      /\ Binary64.total_length
           (Binary64.level_points 0x1p53 (- 0x1p49)
            ++ Binary64.level_points 0 1.5)
         = Ok (0x1p53 + 32)
      /\ ltb (0x1p53 + 24) (0x1p53 + 32) = true).
Proof.
  intros Hcos Hsin. split.
  - split; [reflexivity|]. split; [reflexivity|]. split; [|reflexivity].
    rewrite (binary64_get_points_at_0 libm Binary64.right_at_0
               Binary64.halving_walk) by (rewrite ?Hcos, ?Hsin; reflexivity).
    apply binary64_halving_run.
  - split; [reflexivity|]. split; [reflexivity|].
    split; [|split; vm_compute; reflexivity].
    rewrite (binary64_get_points_at_0 libm Binary64.right_at_0
               Binary64.stepping_walk) by (rewrite ?Hcos, ?Hsin; reflexivity).
    apply binary64_stepping_run.
Qed.

Lemma bunched_get_points_breaks_max_length_witness :
  Binary64.cos Binary64.right_at_0 0 = 1
  /\ Binary64.sin Binary64.right_at_0 0 = 0
  /\ Binary64.BunchedScribble.get_points Binary64.right_at_0
       Binary64.halving_walk 15 0x1p-53 10 1
     = Ok []
  /\ Binary64.total_length
       (Binary64.level_points 0x1p53 (- 0x1p49)
        ++ Binary64.level_points 0 1.5)
     = Ok (0x1p53 + 32).
Proof.
  split; [reflexivity|]. split; [reflexivity|].
  destruct (bunched_get_points_breaks_max_length Binary64.right_at_0 0
              eq_refl eq_refl) as [(_ & _ & Hempty & _) (_ & _ & _ & Hlen & _)].
  split; [exact Hempty|exact Hlen].
Defined.

End Rounded.

(** ** The circle walk *)

Lemma circle_new_point (k : nat) (angle : R) :
  angle = 15 * INR k ->
  LinearScribble._get_new_point Notions.circle_walk angle 10
  = (Notions.circle_point k, angle + 15, 10).
Proof.
  intros ->. unfold LinearScribble._get_new_point, Notions.circle_point,
    LinearScribble.RADIANS. reflexivity.
Qed.

Lemma circle_points_snoc (k : nat) :
  map Notions.circle_point (seq 0 k) ++ [Notions.circle_point k]
  = map Notions.circle_point (seq 0 (S k)).
Proof. rewrite seq_S, map_app. reflexivity. Qed.

(** Whatever the budget, the straight-line generator returns the first
    points of the walk. *)
Lemma circle_loop_prefix (max_length : R) (fuel : nat) :
  forall k points length angle result,
    angle = 15 * INR k ->
    points = map Notions.circle_point (seq 0 k) ->
    LinearScribble.get_points_while Notions.circle_walk max_length fuel
      points length 10 angle = Ok result ->
    result = map Notions.circle_point (seq 0 (List.length result)).
Proof.
  induction fuel as [|fuel IH]; intros k points len angle result Hangle Hpoints;
    cbn [LinearScribble.get_points_while];
    destruct (Rltb len max_length) eqn:Hcond; try discriminate.
  1,3: intros [= <-]; rewrite Hpoints at 1;
       rewrite Hpoints, length_map, length_seq; reflexivity.
  rewrite (circle_new_point k angle Hangle).
  assert (Hnext : angle + 15 = 15 * INR (S k)) by (rewrite S_INR, Hangle; ring).
  assert (Hsnoc : points ++ [Notions.circle_point k]
                  = map Notions.circle_point (seq 0 (S k)))
    by (rewrite Hpoints; apply circle_points_snoc).
  destruct (0 <? List.length points)%nat.
  - destruct (Rltb max_length _).
    + intros [= <-]. rewrite Hpoints at 1.
      rewrite Hpoints, length_map, length_seq. reflexivity.
    + apply (IH (S k)); assumption.
  - apply (IH (S k)); assumption.
Qed.

Lemma circle_point_values :
  Notions.circle_point 0 = (10, 0)
  /\ Notions.circle_point 6 = (0, 10)
  /\ Notions.circle_point 12 = (-10, 0)
  /\ Notions.circle_point 18 = (0, -10).
Proof.
  unfold Notions.circle_point. repeat split.
  - replace (15 * INR 0 * (PI / 180)) with 0 by (cbn [INR]; field).
    rewrite cos_0, sin_0. f_equal; ring.
  - replace (15 * INR 6 * (PI / 180)) with (PI / 2) by (simpl INR; field).
    rewrite cos_PI2, sin_PI2. f_equal; ring.
  - replace (15 * INR 12 * (PI / 180)) with PI by (simpl INR; field).
    rewrite cos_PI, sin_PI. f_equal; ring.
  - replace (15 * INR 18 * (PI / 180)) with (3 * (PI / 2)) by (simpl INR; field).
    rewrite cos_3PI2, sin_3PI2. f_equal; ring.
Qed.

Lemma within_refl (eps : R) (p : Point) : 0 <= eps -> Notions.within eps p p.
Proof.
  intros H. unfold Notions.within.
  rewrite !Rminus_diag, Rabs_R0. split; exact H.
Qed.

(** C9: on the circle walk with radius 10, whatever [max_length], a
    result of 19 points or more has its point of index [k] given by the
    point formula at angle [15 k] degrees, and its points of index 0, 6, 12
    and 18 are (10, 0), (0, 10), (-10, 0) and (0, -10) to within 1e-6. *)
Theorem linear_circle_points (max_length : R) (fuel : nat) (points : list Point) :
  LinearScribble.get_points Notions.circle_walk 10 max_length fuel = Ok points ->
  (19 <= length points)%nat ->
  (forall k, (k < length points)%nat ->
             nth k points (0, 0) = Notions.circle_point k)
  /\ Notions.within (1 / 1000000) (nth 0 points (0, 0)) (10, 0)
  /\ Notions.within (1 / 1000000) (nth 6 points (0, 0)) (0, 10)
  /\ Notions.within (1 / 1000000) (nth 12 points (0, 0)) (-10, 0)
  /\ Notions.within (1 / 1000000) (nth 18 points (0, 0)) (0, -10).
Proof.
  intros Hrun Hlen. unfold LinearScribble.get_points in Hrun.
  rewrite (Rleb_false 10 0) in Hrun by lra.
  destruct (Rleb max_length 0); [discriminate|].
  apply (circle_loop_prefix max_length fuel 0 [] 0 0 points) in Hrun;
    [|cbn [INR]; ring|reflexivity].
  assert (Hnth : forall k, (k < length points)%nat ->
                           nth k points (0, 0) = Notions.circle_point k).
  { intros k Hk. rewrite Hrun.
    rewrite (nth_indep _ (0, 0) (Notions.circle_point 0))
      by (rewrite length_map, length_seq; exact Hk).
    rewrite (map_nth Notions.circle_point), seq_nth by exact Hk. reflexivity. }
  destruct circle_point_values as (H0 & H6 & H12 & H18).
  split; [exact Hnth|].
  rewrite !Hnth by lia. rewrite H0, H6, H12, H18.
  repeat split; apply within_refl; lra.
Qed.

(** Consecutive points of the circle walk are one chord apart. *)
Lemma circle_chord (k : nat) :
  distance (Notions.circle_point k) (Notions.circle_point (S k))
  = Notions.length_per_arc.
Proof.
  unfold distance, Notions.circle_point, Notions.length_per_arc. cbn [fst snd].
  f_equal.
  set (a := 15 * INR k * (PI / 180)).
  set (b := 15 * INR (S k) * (PI / 180)).
  replace (15 * (PI / 180)) with (b - a) by (unfold a, b; rewrite S_INR; field).
  rewrite cos_minus.
  pose proof (sin2_cos2 a) as Ha. pose proof (sin2_cos2 b) as Hb.
  unfold Rsqr in Ha, Hb.
  replace ((10 * cos b + 0 - (10 * cos a + 0)) ^ 2
           + (10 * sin b + 0 - (10 * sin a + 0)) ^ 2)
    with (100 * (sin a * sin a + cos a * cos a)
          + 100 * (sin b * sin b + cos b * cos b)
          - 200 * (cos b * cos a + sin b * sin a)) by ring.
  rewrite Ha, Hb. ring.
Qed.

Lemma length_per_arc_pos : 0 < Notions.length_per_arc.
Proof.
  unfold Notions.length_per_arc. apply sqrt_lt_R0.
  pose proof PI_RGT_0 as Hpi.
  assert (Hcos : cos (15 * (PI / 180)) < cos 0)
    by (apply cos_decreasing_1; lra).
  rewrite cos_0 in Hcos. lra.
Qed.

Lemma last_circle_point (k : nat) :
  last_point (map Notions.circle_point (seq 0 (S k))) = Notions.circle_point k.
Proof. rewrite <- circle_points_snoc. apply last_point_snoc. Qed.

(** With a budget of [n] chords the loop accepts the points of index 0
    to [n] and stops. *)
Lemma circle_loop_run (n m : nat) :
  forall k fuel length angle,
    (k + m = n)%nat ->
    (m <= fuel)%nat ->
    length = Notions.length_per_arc * INR k ->
    angle = 15 * INR (S k) ->
    LinearScribble.get_points_while Notions.circle_walk
      (Notions.length_per_arc * INR n) fuel
      (map Notions.circle_point (seq 0 (S k))) length 10 angle
    = Ok (map Notions.circle_point (seq 0 (S n))).
Proof.
  pose proof length_per_arc_pos as Hc.
  induction m as [|m IH]; intros k fuel len angle Hkm Hfuel Hlen Hangle.
  - replace k with n by lia. apply linear_exit. subst len.
    replace k with n by lia. lra.
  - destruct fuel as [|fuel]; [lia|].
    assert (Hk : INR k + 1 <= INR n)
      by (rewrite <- S_INR; apply le_INR; lia).
    rewrite linear_accept; rewrite ?(circle_new_point (S k) angle Hangle);
      cbn [fst snd]; rewrite ?last_circle_point, ?circle_chord.
    + rewrite circle_points_snoc. apply IH; try lia.
      * rewrite S_INR. subst len. ring.
      * rewrite (S_INR (S k)). subst angle. ring.
    + subst len. apply Rmult_lt_compat_l; lra.
    + discriminate.
    + subst len. replace (Notions.length_per_arc * INR k + Notions.length_per_arc)
        with (Notions.length_per_arc * (INR k + 1)) by ring.
      apply Rmult_le_compat_l; lra.
Qed.

Lemma circle_run (n : nat) :
  (1 <= n)%nat ->
  LinearScribble.get_points Notions.circle_walk 10
    (Notions.length_per_arc * INR n) (S n)
  = Ok (map Notions.circle_point (seq 0 (S n))).
Proof.
  intros Hn. pose proof length_per_arc_pos as Hc.
  assert (Hpos : 0 < Notions.length_per_arc * INR n).
  { apply Rmult_lt_0_compat; [exact Hc|]. apply lt_0_INR. lia. }
  unfold LinearScribble.get_points.
  rewrite (Rleb_false 10 0) by lra. rewrite Rleb_false by exact Hpos.
  rewrite linear_first by exact Hpos.
  rewrite (circle_new_point 0 0) by (cbn [INR]; ring). cbn [fst snd].
  apply (circle_loop_run n n 0 n); try lia.
  - cbn [INR]. ring.
  - cbn [INR]. ring.
Qed.

Lemma linear_circle_points_witness :
  LinearScribble.get_points Notions.circle_walk 10
    (Notions.length_per_arc * INR 24) 25
  = Ok (map Notions.circle_point (seq 0 25))
  /\ (19 <= length (map Notions.circle_point (seq 0 25)))%nat
  /\ (forall k, (k < length (map Notions.circle_point (seq 0 25)))%nat ->
                nth k (map Notions.circle_point (seq 0 25)) (0, 0)
                = Notions.circle_point k)
  /\ Notions.within (1 / 1000000)
       (nth 0 (map Notions.circle_point (seq 0 25)) (0, 0)) (10, 0)
  /\ Notions.within (1 / 1000000)
       (nth 6 (map Notions.circle_point (seq 0 25)) (0, 0)) (0, 10)
  /\ Notions.within (1 / 1000000)
       (nth 12 (map Notions.circle_point (seq 0 25)) (0, 0)) (-10, 0)
  /\ Notions.within (1 / 1000000)
       (nth 18 (map Notions.circle_point (seq 0 25)) (0, 0)) (0, -10).
Proof.
  assert (Hrun : LinearScribble.get_points Notions.circle_walk 10
                   (Notions.length_per_arc * INR 24) 25
                 = Ok (map Notions.circle_point (seq 0 25)))
    by (apply (circle_run 24); lia).
  assert (Hlen : (19 <= length (map Notions.circle_point (seq 0 25)))%nat)
    by (rewrite length_map, length_seq; lia).
  split; [exact Hrun|]. split; [exact Hlen|].
  exact (linear_circle_points (Notions.length_per_arc * INR 24) 25
           (map Notions.circle_point (seq 0 25)) Hrun Hlen).
Defined.

(** ** Curves on the straight walk *)

Lemma distance_level (p q : Point) :
  snd p = snd q -> fst p <= fst q -> distance p q = fst q - fst p.
Proof.
  destruct p as [a y], q as [b y']. cbn [fst snd]. intros <- Hab.
  apply distance_horizontal. exact Hab.
Qed.

Ltac level_distances :=
  repeat match goal with
         | |- context [distance (?a, ?b) (?c, ?d)] =>
             rewrite (distance_level (a, b) (c, d)) by (cbn [fst snd]; lra)
         end;
  cbn [fst snd].

Lemma straight_bezier (a : R) :
  BunchedScribble.bezier_curve_points (a, 0) (a + 1, 0) (a + 1 + 1, 0) 10
  = Ok (Notions.straight_curve a).
Proof.
  unfold BunchedScribble.bezier_curve_points, Notions.straight_curve.
  replace (range 1 (10 + 1)) with [1; 2; 3; 4; 5; 6; 7; 8; 9; 10]%Z by reflexivity.
  replace (range 0 11) with [0; 1; 2; 3; 4; 5; 6; 7; 8; 9; 10]%Z by reflexivity.
  cbn [Z.eqb map fst snd]. apply f_equal.
  repeat (apply f_equal2; [apply f_equal2; lra|]). reflexivity.
Qed.







(** ** Where the curves of [BunchedScribble] meet *)






(** ** The cut of [CurvyScribble] *)


Lemma straight_cut_length (a : R) :
  path_length (Notions.straight_cut a) = 8 / 5.
Proof.
  unfold Notions.straight_cut, Notions.straight_curve.
  replace (range 0 11) with [0; 1; 2; 3; 4; 5; 6; 7; 8; 9; 10]%Z by reflexivity.
  cbn [map firstn path_length]. level_distances. lra.
Qed.

Lemma straight_cut_cons (a : R) :
  exists p tail, Notions.straight_cut a = p :: tail.
Proof.
  unfold Notions.straight_cut, Notions.straight_curve.
  replace (range 0 11) with [0; 1; 2; 3; 4; 5; 6; 7; 8; 9; 10]%Z by reflexivity.
  cbn [map firstn]. do 2 eexists. reflexivity.
Qed.



(** ** Runs that end at once, and a run that never ends *)

(** With a budget of 1 the first curve of [CurvyScribble] on the straight
    walk is too long: the loop shortens it and returns. *)
Lemma curvy_straight_run :
  exists k,
    CurvyScribble.get_points Notions.straight_walk 1 1 10 1
    = Ok (firstn k (Notions.straight_cut 1))
    /\ firstn k (Notions.straight_cut 1) <> [].
Proof.
  unfold CurvyScribble.get_points.
  rewrite (Rleb_false 1 0) by lra.
  replace (BunchedScribble._min_steps 10) with 10%Z by reflexivity.
  cbv zeta. cbn [CurvyScribble.get_points_while st_length].
  rewrite Rltb_true by lra.
  unfold CurvyScribble.next_curve, BunchedScribble.next_triple.
  cbn [st_point_pool st_angle st_radius st_length st_points].
  cbn [BunchedScribble.fill_pool length Nat.ltb Nat.leb app].
  rewrite straight_new_point. cbn [length Nat.ltb Nat.leb app].
  rewrite straight_new_point. cbn [length Nat.ltb Nat.leb app].
  rewrite straight_new_point. cbn [length Nat.ltb Nat.leb app bind].
  rewrite straight_bezier. cbn [bind st_length].
  change (slice_to (Notions.straight_curve 1)
            (CurvyScribble.new_terminus_index 10 + 1))
    with (Notions.straight_cut 1).
  destruct (straight_cut_cons 1) as (p & tail & E).
  pose proof (straight_cut_length 1) as Hlen.
  rewrite E in *. rewrite total_length_path. cbn [bind].
  rewrite Rltb_true by lra.
  destruct (shorten_curve_spec (p :: tail) (path_length (p :: tail)) (1 - 0))
    as (k & Hk & _ & Hne); [reflexivity|lra|].
  rewrite Hk. cbn [bind add_curve st_points app].
  exists k. split; [reflexivity|]. apply Hne. discriminate.
Qed.

(** A scribble whose step functions leave the radius and the angle as
    they are makes [LinearScribble.get_points] loop for ever: whatever the
    number of passes allowed, the loop has not ended. *)
Lemma linear_standstill_loops (fuel : nat) :
  forall points length,
    points <> [] -> last_point points = (1, 0) -> length < 1 -> 0 <= length ->
    LinearScribble.get_points_while Notions.standstill 1 fuel points length 1 0
    = OutOfFuel.
Proof.
  assert (Hnew : LinearScribble._get_new_point Notions.standstill 0 1
                 = ((1, 0), 0, 1)).
  { unfold LinearScribble._get_new_point. cbn.
    replace (0 * LinearScribble.RADIANS) with 0 by ring.
    rewrite cos_0, sin_0. repeat f_equal; ring. }
  induction fuel as [|fuel IH]; intros points len Hne Hlast Hlt Hpos.
  - cbn. rewrite Rltb_true by exact Hlt. reflexivity.
  - rewrite linear_accept; rewrite ?Hnew; cbn [fst snd];
      rewrite ?Hlast, ?distance_same; try lra; try assumption.
    apply IH; try lra.
    + apply app_nonempty_r. discriminate.
    + apply last_point_snoc.
Qed.

Lemma linear_standstill_never_returns (fuel : nat) :
  LinearScribble.get_points Notions.standstill 1 1 (S fuel) = OutOfFuel.
Proof.
  unfold LinearScribble.get_points. rewrite (Rleb_false 1 0) by lra.
  rewrite linear_first by lra.
  replace (LinearScribble._get_new_point Notions.standstill 0 1)
    with (((1, 0), 0, 1) : Point * R * R).
  - cbn [fst snd]. apply linear_standstill_loops; try lra.
    + discriminate.
    + reflexivity.
  - unfold LinearScribble._get_new_point. cbn.
    replace (0 * LinearScribble.RADIANS) with 0 by ring.
    rewrite cos_0, sin_0. repeat f_equal; ring.
Qed.

(** * Further properties of [scribbles/points.py] *)

(** ** [distance] *)

Lemma distance_dist_euc (p q : Point) :
  distance p q = dist_euc (fst q) (snd q) (fst p) (snd p).
Proof. unfold distance, dist_euc. rewrite !Rsqr_pow2. reflexivity. Qed.

Lemma distance_sym (p q : Point) : distance p q = distance q p.
Proof. unfold distance. f_equal. ring. Qed.

Lemma distance_triangle (p q r : Point) :
  distance p r <= distance p q + distance q r.
Proof.
  rewrite (distance_sym p r), (distance_sym p q), (distance_sym q r).
  rewrite !distance_dist_euc.
  pose proof (triangle (fst p) (snd p) (fst r) (snd r) (fst q) (snd q)). lra.
Qed.

Lemma distance_zero (p q : Point) : distance p q = 0 -> p = q.
Proof.
  unfold distance. intros H. apply sqrt_eq_0 in H.
  - destruct p as [a b], q as [c d]. cbn [fst snd] in H.
    pose proof (pow2_ge_0 (c - a)) as Hx. pose proof (pow2_ge_0 (d - b)) as Hy.
    assert (Ex : (c - a) * (c - a) = 0) by lra.
    assert (Ey : (d - b) * (d - b) = 0) by lra.
    apply Rmult_integral in Ex. apply Rmult_integral in Ey.
    f_equal; lra.
  - apply Rplus_le_le_0_compat; apply pow2_ge_0.
Qed.

(** [distance] is a metric on points: never negative, zero between a
    point and itself only, the same in both directions, and never more
    than the sum of the distances through a third point. *)
Theorem distance_is_metric (p q r : Point) :
  0 <= distance p q
  /\ (distance p q = 0 <-> p = q)
  /\ distance p q = distance q p
  /\ distance p r <= distance p q + distance q r.
Proof.
  split; [apply distance_nonneg|]. split.
  - split; [apply distance_zero|]. intros ->. apply distance_same.
  - split; [apply distance_sym|apply distance_triangle].
Qed.

(** ** [total_length] *)



Lemma path_length_rev (l : list Point) : path_length (rev l) = path_length l.
Proof.
  induction l as [|a [|b l] IH]; try reflexivity.
  change (rev (a :: b :: l)) with (rev (b :: l) ++ [a]).
  change (rev (b :: l)) with (rev l ++ [b]) in *.
  rewrite path_length_snoc, IH.
  change (path_length (a :: b :: l)) with (distance a b + path_length (b :: l)).
  rewrite (distance_sym b a). ring.
Qed.

(** A path walked backwards has the same length; on the empty list both
    calls raise. *)
Theorem total_length_rev (points : list Point) :
  total_length (rev points) = total_length points.
Proof.
  destruct points as [|p rest]; [reflexivity|].
  rewrite total_length_path.
  destruct (rev (p :: rest)) as [|q l] eqn:E.
  - apply (f_equal (@length Point)) in E. rewrite length_rev in E. discriminate.
  - rewrite total_length_path, <- E, path_length_rev. reflexivity.
Qed.

(** ** [max_distance] *)



(** ** Pipelines built by chains of builder calls *)

Lemma call_mapping (b : Pipeline.builder) (self : addr) (h : heap) :
  Pipeline.call b self h = _apply self (Pipeline.mapping b) h.
Proof. destruct b; reflexivity. Qed.

Lemma chain_register (bs : list Pipeline.builder) :
  forall self h,
    Pipeline.chain bs self h = register self (map Pipeline.mapping bs) h.
Proof.
  induction bs as [|b bs IH]; intros self h; [reflexivity|].
  cbn [Pipeline.chain map register]. rewrite call_mapping.
  destruct (_apply self (Pipeline.mapping b) h) as [[self' h']| |]; cbn [bind]; auto.
Qed.

(** What a freshly built pipeline does to a list of points. *)
Lemma transformed_spec (bs : list Pipeline.builder) (items : list Point) (h : heap) :
  Pipeline.transformed bs items h
  = Ok (map (apply_in_order (map Pipeline.mapping bs)) items).
Proof.
  unfold Pipeline.transformed.
  pose proof (nth_error_alloc_new h (PointList items)) as Hpoints.
  destruct (alloc (PointList items) h) as [points h1]. cbn [fst snd] in Hpoints.
  destruct (new_transformer_spec h1) as (Hnew & Hfresh & Hold).
  destruct (PointTransformer h1) as [t h2]. cbn [fst snd] in *.
  rewrite chain_register.
  destruct (register_spec (map Pipeline.mapping bs) t h2 _ Hnew)
    as (h3 & Hreg & Hfns & Hframe).
  rewrite Hreg. cbn [bind app] in *.
  assert (Hne : points <> t) by (intros ->; congruence).
  assert (Hpoints3 : nth_error h3 points = Some (PointList items)).
  { rewrite Hframe by exact Hne. apply Hold. exact Hpoints. }
  destruct (transform_spec h3 t points _ _ items Hfns Hpoints3)
    as (result & h4 & Htr & _ & Hres & _).
  rewrite Htr. cbn [bind]. unfold Pipeline.read_points. rewrite Hres.
  reflexivity.
Qed.

Lemma apply_in_order_cons (f : Point -> Point) (fns : list (Point -> Point))
    (pt : Point) :
  apply_in_order (f :: fns) pt = apply_in_order fns (f pt).
Proof. reflexivity. Qed.

(** Transforming with one pipeline and then with another is transforming
    once with the pipeline of all their builder calls, in order. *)
Theorem transformed_twice (bs1 bs2 : list Pipeline.builder)
    (items : list Point) (h h' : heap) :
  exists between,
    Pipeline.transformed bs1 items h = Ok between
    /\ Pipeline.transformed bs2 between h'
       = Pipeline.transformed (bs1 ++ bs2) items h.
Proof.
  eexists. split; [apply transformed_spec|].
  rewrite !transformed_spec. f_equal. rewrite map_map.
  apply map_ext. intros pt. rewrite map_app, apply_in_order_app. reflexivity.
Qed.

(** *** Rigid pipelines *)

Lemma rigid_mapping (b : Pipeline.builder) (p q : Point) :
  Pipeline.rigid b ->
  distance (Pipeline.mapping b p) (Pipeline.mapping b q) = distance p q.
Proof.
  destruct b; cbn [Pipeline.rigid]; try contradiction; intros _;
    unfold distance; cbn [Pipeline.mapping fst snd]; f_equal; try ring.
  set (c := cos (Points.RADIANS * angle)). set (s := sin (Points.RADIANS * angle)).
  assert (Hcs : s * s + c * c = 1) by (apply (sin2_cos2 (Points.RADIANS * angle))).
  replace ((fst q * c + snd q * s - (fst p * c + snd p * s)) ^ 2
           + (snd q * c - fst q * s - (snd p * c - fst p * s)) ^ 2)
    with (((fst q - fst p) ^ 2 + (snd q - snd p) ^ 2) * (s * s + c * c)) by ring.
  rewrite Hcs. ring.
Qed.

Lemma rigid_pipeline (bs : list Pipeline.builder) :
  Forall Pipeline.rigid bs ->
  forall p q,
    distance (apply_in_order (map Pipeline.mapping bs) p)
             (apply_in_order (map Pipeline.mapping bs) q)
    = distance p q.
Proof.
  induction 1 as [|b bs Hb _ IH]; intros p q; [reflexivity|].
  cbn [map]. rewrite !apply_in_order_cons, IH. apply rigid_mapping. exact Hb.
Qed.

Lemma path_length_map (f : Point -> Point) (k : R) (l : list Point) :
  (forall p q, distance (f p) (f q) = k * distance p q) ->
  path_length (map f l) = k * path_length l.
Proof.
  intros Hf. induction l as [|a [|b l] IH]; cbn [map path_length]; try ring.
  cbn [map path_length] in IH. rewrite IH, Hf. ring.
Qed.

Lemma nth_map_in_range (f : Point -> Point) (l : list Point) (i : nat) :
  (i < length l)%nat -> nth i (map f l) (0, 0) = f (nth i l (0, 0)).
Proof.
  intros Hi. rewrite (nth_indep _ _ (f (0, 0))) by (rewrite length_map; exact Hi).
  apply map_nth.
Qed.

Lemma total_length_map (f : Point -> Point) (l : list Point) :
  (forall p q, distance (f p) (f q) = distance p q) ->
  total_length (map f l) = total_length l.
Proof.
  intros Hf. destruct l as [|a l]; [reflexivity|].
  cbn [map]. rewrite !total_length_path. f_equal.
  change (f a :: map f l) with (map f (a :: l)).
  rewrite (path_length_map f 1) by (intros p q; rewrite Hf; ring). ring.
Qed.

(** A pipeline of rotations, translations and mirrorings moves a path
    without stretching it: as many points, the same distance between any
    two of them, the same total length. *)
Theorem rigid_pipeline_keeps_lengths (bs : list Pipeline.builder)
    (items : list Point) (h : heap) :
  Forall Pipeline.rigid bs ->
  exists items',
    Pipeline.transformed bs items h = Ok items'
    /\ length items' = length items
    /\ (forall i j, (i < length items)%nat -> (j < length items)%nat ->
          distance (nth i items' (0, 0)) (nth j items' (0, 0))
          = distance (nth i items (0, 0)) (nth j items (0, 0)))
    /\ total_length items' = total_length items.
Proof.
  intros Hrigid. pose proof (rigid_pipeline bs Hrigid) as Hiso.
  exists (map (apply_in_order (map Pipeline.mapping bs)) items).
  split; [apply transformed_spec|]. split; [apply length_map|]. split.
  - intros i j Hi Hj. rewrite !nth_map_in_range by assumption. apply Hiso.
  - apply total_length_map. exact Hiso.
Qed.

Lemma rigid_pipeline_keeps_lengths_witness :
  Forall Pipeline.rigid
    [Pipeline.MirrorVertical; Pipeline.Translate 5 (-10); Pipeline.Rotate (-30)]
  /\ exists items',
       Pipeline.transformed
         [Pipeline.MirrorVertical; Pipeline.Translate 5 (-10); Pipeline.Rotate (-30)]
         five_points [] = Ok items'
       /\ length items' = length five_points
       /\ (forall i j, (i < length five_points)%nat -> (j < length five_points)%nat ->
             distance (nth i items' (0, 0)) (nth j items' (0, 0))
             = distance (nth i five_points (0, 0)) (nth j five_points (0, 0)))
       /\ total_length items' = total_length five_points.
Proof.
  assert (H : Forall Pipeline.rigid
                [Pipeline.MirrorVertical; Pipeline.Translate 5 (-10);
                 Pipeline.Rotate (-30)])
    by (repeat constructor).
  split; [exact H|].
  exact (rigid_pipeline_keeps_lengths _ five_points [] H).
Defined.

(** *** Scaling *)

Lemma scale_mapping (s : R) (p q : Point) :
  distance (Pipeline.mapping (Pipeline.Scale s s) p)
           (Pipeline.mapping (Pipeline.Scale s s) q)
  = Rabs s * distance p q.
Proof.
  unfold distance. cbn [Pipeline.mapping fst snd].
  rewrite <- sqrt_Rsqr_abs, <- sqrt_mult.
  - f_equal. unfold Rsqr. ring.
  - apply Rle_0_sqr.
  - apply Rplus_le_le_0_compat; apply pow2_ge_0.
Qed.

(** A rigid pipeline that ends with [scale(s, s)], as the tunnel's
    [translate(...).rotate(...).scale(scale, scale)], multiplies the
    length of every path by [|s|]. *)
Theorem scaled_pipeline_scales_lengths (bs : list Pipeline.builder) (s : R)
    (p : Point) (rest : list Point) (h : heap) :
  Forall Pipeline.rigid bs ->
  exists items' len len',
    Pipeline.transformed (bs ++ [Pipeline.Scale s s]) (p :: rest) h = Ok items'
    /\ total_length (p :: rest) = Ok len
    /\ total_length items' = Ok len'
    /\ len' = Rabs s * len.
Proof.
  intros Hrigid. pose proof (rigid_pipeline bs Hrigid) as Hiso.
  set (f := apply_in_order (map Pipeline.mapping (bs ++ [Pipeline.Scale s s]))).
  exists (map f (p :: rest)), (path_length (p :: rest)),
         (path_length (map f (p :: rest))).
  split; [apply transformed_spec|]. split; [apply total_length_path|].
  split; [apply total_length_path|].
  apply path_length_map. intros a b. unfold f.
  rewrite map_app, !apply_in_order_app. cbn [map].
  rewrite !apply_in_order_cons. cbn [apply_in_order fold_left].
  rewrite scale_mapping, Hiso. reflexivity.
Qed.

Lemma scaled_pipeline_scales_lengths_witness :
  Forall Pipeline.rigid [Pipeline.Translate (-2) 0; Pipeline.Rotate (-15)]
  /\ exists items' len len',
       Pipeline.transformed
         ([Pipeline.Translate (-2) 0; Pipeline.Rotate (-15)] ++ [Pipeline.Scale 3 3])
         ((0, 0) :: [(3, 5); (20, 9)]) [] = Ok items'
       /\ total_length ((0, 0) :: [(3, 5); (20, 9)]) = Ok len
       /\ total_length items' = Ok len'
       /\ len' = Rabs 3 * len.
Proof.
  assert (H : Forall Pipeline.rigid
                [Pipeline.Translate (-2) 0; Pipeline.Rotate (-15)])
    by (repeat constructor).
  split; [exact H|].
  exact (scaled_pipeline_scales_lengths _ 3 (0, 0) [(3, 5); (20, 9)] [] H).
Defined.

(** *** [limit] *)

Lemma clamp_inside (lo hi x : R) :
  lo <= hi ->
  lo <= Rmin (Rmax x lo) hi <= hi
  /\ (lo <= x <= hi -> Rmin (Rmax x lo) hi = x).
Proof.
  intros H. unfold Rmin, Rmax.
  destruct (Rle_dec x lo); destruct (Rle_dec _ hi); split; intros; lra.
Qed.

Lemma clamp_inverted (lo hi x : R) : hi < lo -> Rmin (Rmax x lo) hi = hi.
Proof.
  intros H. unfold Rmin, Rmax.
  destruct (Rle_dec x lo); destruct (Rle_dec _ hi); lra.
Qed.

(** [limit(x_max, x_min, y_max, y_min)] with each minimum at most its
    maximum puts every point in the box, and leaves the points that are in
    the box where they are. *)
Theorem limit_clamps_into_box (x_max x_min y_max y_min : R)
    (items : list Point) (h : heap) :
  x_min <= x_max -> y_min <= y_max ->
  exists items',
    Pipeline.transformed [Pipeline.Limit x_max x_min y_max y_min] items h
    = Ok items'
    /\ length items' = length items
    /\ Forall (fun pt => x_min <= fst pt <= x_max /\ y_min <= snd pt <= y_max) items'
    /\ (forall i, (i < length items)%nat ->
          x_min <= fst (nth i items (0, 0)) <= x_max ->
          y_min <= snd (nth i items (0, 0)) <= y_max ->
          nth i items' (0, 0) = nth i items (0, 0)).
Proof.
  intros Hx Hy. eexists. split; [apply transformed_spec|].
  cbn [map]. split; [apply length_map|]. split.
  - apply Forall_map. apply Forall_forall. intros pt _.
    cbn [apply_in_order fold_left Pipeline.mapping fst snd].
    split; [apply (clamp_inside x_min x_max (fst pt) Hx)
           |apply (clamp_inside y_min y_max (snd pt) Hy)].
  - intros i Hi Hix Hiy. rewrite nth_map_in_range by exact Hi.
    cbn [apply_in_order fold_left Pipeline.mapping].
    destruct (nth i items (0, 0)) as [x y]. cbn [fst snd] in *.
    f_equal; [apply (clamp_inside x_min x_max x Hx)
             |apply (clamp_inside y_min y_max y Hy)]; assumption.
Qed.

Lemma limit_clamps_into_box_witness :
  -15 <= 8 /\ -10 <= 15
  /\ exists items',
       Pipeline.transformed [Pipeline.Limit 8 (-15) 15 (-10)]
         Pipeline.test_points [] = Ok items'
       /\ length items' = length Pipeline.test_points
       /\ Forall (fun pt => -15 <= fst pt <= 8 /\ -10 <= snd pt <= 15) items'
       /\ (forall i,
             (i < length Pipeline.test_points)%nat ->
             -15 <= fst (nth i Pipeline.test_points (0, 0)) <= 8 ->
             -10 <= snd (nth i Pipeline.test_points (0, 0)) <= 15 ->
             nth i items' (0, 0) = nth i Pipeline.test_points (0, 0)).
Proof.
  split; [lra|]. split; [lra|].
  apply (limit_clamps_into_box 8 (-15) 15 (-10)); lra.
Defined.

(** With the two x bounds exchanged ([x_max < x_min]) [limit] sends every
    point to the line [x = x_max], and likewise for y. *)
Theorem limit_with_exchanged_bounds (x_max x_min y_max y_min : R)
    (items : list Point) (h : heap) :
  x_max < x_min ->
  exists items',
    Pipeline.transformed [Pipeline.Limit x_max x_min y_max y_min] items h
    = Ok items'
    /\ Forall (fun pt => fst pt = x_max) items'
    /\ (y_max < y_min -> Forall (fun pt => pt = (x_max, y_max)) items').
Proof.
  intros Hx. eexists. split; [apply transformed_spec|]. cbn [map]. split.
  - apply Forall_map. apply Forall_forall. intros pt _.
    cbn [apply_in_order fold_left Pipeline.mapping fst snd].
    apply clamp_inverted. exact Hx.
  - intros Hy. apply Forall_map. apply Forall_forall. intros pt _.
    cbn [apply_in_order fold_left Pipeline.mapping].
    f_equal; apply clamp_inverted; assumption.
Qed.

Lemma limit_with_exchanged_bounds_witness :
  -15 < 8
  /\ exists items',
       Pipeline.transformed [Pipeline.Limit (-15) 8 15 (-10)]
         Pipeline.test_points [] = Ok items'
       /\ Forall (fun pt => fst pt = -15) items'
       /\ (15 < -10 -> Forall (fun pt => pt = (-15, 15)) items').
Proof.
  split; [lra|].
  apply (limit_with_exchanged_bounds (-15) 8 15 (-10)). lra.
Defined.

(** *** Builder calls that undo one another *)

Lemma inverse_mapping (b b' : Pipeline.builder) (pt : Point) :
  Pipeline.inverse b = Some b' ->
  Pipeline.mapping b' (Pipeline.mapping b pt) = pt.
Proof.
  destruct pt as [x y].
  destruct b; cbn [Pipeline.inverse]; try discriminate.
  - intros [= <-]. cbn [Pipeline.mapping fst snd].
    replace (Points.RADIANS * - angle) with (- (Points.RADIANS * angle)) by ring.
    rewrite cos_neg, sin_neg.
    set (c := cos (Points.RADIANS * angle)). set (s := sin (Points.RADIANS * angle)).
    assert (Hcs : s * s + c * c = 1) by (apply (sin2_cos2 (Points.RADIANS * angle))).
    f_equal.
    + replace ((x * c + y * s) * c + (y * c - x * s) * - s)
        with (x * (s * s + c * c)) by ring. rewrite Hcs. ring.
    + replace ((y * c - x * s) * c - (x * c + y * s) * - s)
        with (y * (s * s + c * c)) by ring. rewrite Hcs. ring.
  - intros [= <-]. cbn [Pipeline.mapping fst snd]. f_equal; ring.
  - destruct (Req_dec_T x0 0); [discriminate|].
    destruct (Req_dec_T y0 0); [discriminate|].
    intros [= <-]. cbn [Pipeline.mapping fst snd]. f_equal; field; assumption.
  - intros [= <-]. cbn [Pipeline.mapping fst snd]. f_equal; ring.
  - intros [= <-]. cbn [Pipeline.mapping fst snd]. f_equal; ring.
Qed.

(** [rotate(a).rotate(-a)], [translate(x, y).translate(-x, -y)],
    [scale(x, y).scale(1/x, 1/y)] for non-zero [x] and [y], and a mirroring
    done twice give back the points they are given. *)
Theorem builder_then_inverse (b b' : Pipeline.builder) (items : list Point)
    (h : heap) :
  Pipeline.inverse b = Some b' ->
  Pipeline.transformed [b; b'] items h = Ok items.
Proof.
  intros Hinv. rewrite transformed_spec. f_equal.
  rewrite <- (map_id items) at 2. apply map_ext. intros pt.
  cbn [map apply_in_order fold_left]. apply inverse_mapping. exact Hinv.
Qed.

Lemma builder_then_inverse_witness :
  Pipeline.inverse (Pipeline.Rotate 45) = Some (Pipeline.Rotate (- 45))
  /\ Pipeline.transformed [Pipeline.Rotate 45; Pipeline.Rotate (- 45)]
       five_points [] = Ok five_points.
Proof.
  split; [reflexivity|].
  apply (builder_then_inverse (Pipeline.Rotate 45) (Pipeline.Rotate (- 45))).
  reflexivity.
Defined.

(** *** Builder calls change the pipeline they are made on *)

(** A builder call made on a pipeline that has already been used returns
    that same pipeline, now longer by one mapping: what [transform]
    returned before is untouched, and so is the list it was given, but
    the next [transform] of the same pipeline object applies the new
    mapping as well. *)
Theorem builder_call_extends_receiver (b : Pipeline.builder) (h : heap)
    (t points : addr) (fn : Point -> Point) (fns : list (Point -> Point))
    (items : list Point) :
  nth_error h t = Some (Transformer (fn :: fns)) ->
  nth_error h points = Some (PointList items) ->
  exists r1 h1 h2 r2 h3,
    transform t points h = Ok (r1, h1)
    /\ Pipeline.call b t h1 = Ok (t, h2)
    /\ transform t points h2 = Ok (r2, h3)
    /\ Pipeline.read_points r1 h3 = Ok (map (apply_in_order (fn :: fns)) items)
    /\ Pipeline.read_points r2 h3
       = Ok (map (fun pt => Pipeline.mapping b (apply_in_order (fn :: fns) pt)) items)
    /\ Pipeline.read_points points h3 = Ok items.
Proof.
  intros Ht Hpoints.
  destruct (transform_spec h t points fn fns items Ht Hpoints)
    as (r1 & h1 & T1 & N1 & O1 & F1).
  destruct (apply_spec h1 t _ (Pipeline.mapping b) (F1 _ _ Ht)) as (Ea & Ha & Fa).
  assert (Hr1 : r1 <> t) by (intros ->; congruence).
  assert (Hp : points <> t) by (intros ->; congruence).
  cbn [app] in Ha.
  match type of Ha with nth_error ?h2 _ = _ =>
    destruct (transform_spec h2 t points fn (fns ++ [Pipeline.mapping b]) items Ha)
      as (r2 & h3 & T2 & N2 & O2 & F2)
  end.
  { rewrite Fa by exact Hp. apply F1. exact Hpoints. }
  exists r1, h1, (store t (Transformer ((fn :: fns) ++ [Pipeline.mapping b])) h1),
    r2, h3. rewrite call_mapping.
  split; [exact T1|]. split; [exact Ea|]. split; [exact T2|].
  unfold Pipeline.read_points. split; [|split].
  - rewrite (F2 r1 (PointList (map (apply_in_order (fn :: fns)) items)));
      [reflexivity|]. rewrite Fa by exact Hr1. exact O1.
  - rewrite O2. f_equal. apply map_ext. intros pt.
    change (fn :: fns ++ [Pipeline.mapping b])
      with ((fn :: fns) ++ [Pipeline.mapping b]).
    rewrite apply_in_order_app. reflexivity.
  - rewrite (F2 points (PointList items)); [reflexivity|].
    rewrite Fa by exact Hp. apply F1. exact Hpoints.
Qed.

Lemma builder_call_extends_receiver_witness :
  nth_error one_pipeline_two_lists 0
  = Some (Transformer [(fun pt => pt); translate_fn])
  /\ nth_error one_pipeline_two_lists 1 = Some (PointList [(0, 0); (3, 5)])
  /\ exists r1 h1 h2 r2 h3,
       transform 0%nat 1%nat one_pipeline_two_lists = Ok (r1, h1)
       /\ Pipeline.call (Pipeline.Scale 3.5 0.5) 0%nat h1 = Ok (0%nat, h2)
       /\ transform 0%nat 1%nat h2 = Ok (r2, h3)
       /\ Pipeline.read_points r1 h3
          = Ok (map (apply_in_order [(fun pt => pt); translate_fn])
                  [(0, 0); (3, 5)])
       /\ Pipeline.read_points r2 h3
          = Ok (map (fun pt => Pipeline.mapping (Pipeline.Scale 3.5 0.5)
                                 (apply_in_order [(fun pt => pt); translate_fn] pt))
                  [(0, 0); (3, 5)])
       /\ Pipeline.read_points 1%nat h3 = Ok [(0, 0); (3, 5)].
Proof.
  split; [reflexivity|]. split; [reflexivity|].
  apply (builder_call_extends_receiver (Pipeline.Scale 3.5 0.5)
           one_pipeline_two_lists 0%nat 1%nat (fun pt => pt) [translate_fn]
           [(0, 0); (3, 5)]); reflexivity.
Defined.

(** * Further properties of [scribbles/core.py] *)

(** ** [bezier_curve_points] *)

(** With a step count of 0 the division [1.0 / n_steps] raises; with a
    negative one the loop over [range(1, n_steps + 1)] has no pass and the
    curve is the first terminal alone. *)
Theorem bezier_curve_points_without_steps (T1 C T2 : Point) (n : Z) :
  (n <= 0)%Z ->
  BunchedScribble.bezier_curve_points T1 C T2 n
  = if (n =? 0)%Z then Raise ZeroDivisionError else Ok [T1].
Proof.
  intros Hn. unfold BunchedScribble.bezier_curve_points.
  destruct (n =? 0)%Z eqn:E; [reflexivity|].
  apply Z.eqb_neq in E. unfold range.
  replace (Z.to_nat (n + 1 - 1)) with 0%nat by lia. reflexivity.
Qed.

Lemma bezier_curve_points_without_steps_witness :
  (-3 <= 0)%Z
  /\ BunchedScribble.bezier_curve_points (10, 5) (7, 20) (2, 14) (-3)
     = if (-3 =? 0)%Z then Raise ZeroDivisionError else Ok [(10, 5)].
Proof.
  split; [lia|].
  apply (bezier_curve_points_without_steps (10, 5) (7, 20) (2, 14) (-3)). lia.
Defined.

Lemma distance_le_sq (o p : Point) (B : R) :
  distance o p <= B ->
  (fst p - fst o) ^ 2 + (snd p - snd o) ^ 2 <= B ^ 2.
Proof.
  intros H. pose proof (distance_nonneg o p) as Hd. unfold distance in *.
  set (s := (fst p - fst o) ^ 2 + (snd p - snd o) ^ 2) in *.
  assert (Hs : 0 <= s) by (apply Rplus_le_le_0_compat; apply pow2_ge_0).
  rewrite <- (sqrt_sqrt s Hs). nra.
Qed.

Lemma sq_le_distance (o p : Point) (B : R) :
  0 <= B ->
  (fst p - fst o) ^ 2 + (snd p - snd o) ^ 2 <= B ^ 2 ->
  distance o p <= B.
Proof.
  intros HB H. unfold distance. rewrite <- (sqrt_pow2 B HB).
  apply sqrt_le_1_alt. exact H.
Qed.

(** A weighted mean of three points of a disc is in the disc. *)
Lemma disc_convex (o p1 p2 p3 : Point) (a b c B : R) :
  0 <= a -> 0 <= b -> 0 <= c -> a + b + c = 1 ->
  distance o p1 <= B -> distance o p2 <= B -> distance o p3 <= B ->
  distance o (a * fst p1 + b * fst p2 + c * fst p3,
              a * snd p1 + b * snd p2 + c * snd p3) <= B.
Proof.
  intros Ha Hb Hc Hsum H1 H2 H3.
  assert (HB : 0 <= B) by (pose proof (distance_nonneg o p1); lra).
  apply distance_le_sq in H1, H2, H3.
  apply sq_le_distance; [exact HB|]. cbn [fst snd].
  destruct o as [ox oy], p1 as [x1 y1], p2 as [x2 y2], p3 as [x3 y3].
  cbn [fst snd] in *.
  set (u1 := x1 - ox) in *. set (v1 := y1 - oy) in *.
  set (u2 := x2 - ox) in *. set (v2 := y2 - oy) in *.
  set (u3 := x3 - ox) in *. set (v3 := y3 - oy) in *.
  replace (a * x1 + b * x2 + c * x3 - ox)
    with (a * u1 + b * u2 + c * u3 + (a + b + c - 1) * ox)
    by (unfold u1, u2, u3; ring).
  replace (a * y1 + b * y2 + c * y3 - oy)
    with (a * v1 + b * v2 + c * v3 + (a + b + c - 1) * oy)
    by (unfold v1, v2, v3; ring).
  rewrite Hsum. clearbody u1 u2 u3 v1 v2 v3.
  assert (E : (a * u1 + b * u2 + c * u3 + (1 - 1) * ox) ^ 2
              + (a * v1 + b * v2 + c * v3 + (1 - 1) * oy) ^ 2
              = (a * (u1 ^ 2 + v1 ^ 2) + b * (u2 ^ 2 + v2 ^ 2)
                 + c * (u3 ^ 2 + v3 ^ 2)) * (a + b + c)
                - (a * b * ((u1 - u2) ^ 2 + (v1 - v2) ^ 2)
                   + a * c * ((u1 - u3) ^ 2 + (v1 - v3) ^ 2)
                   + b * c * ((u2 - u3) ^ 2 + (v2 - v3) ^ 2))) by ring.
  rewrite E, Hsum.
  pose proof (pow2_ge_0 (u1 - u2)). pose proof (pow2_ge_0 (v1 - v2)).
  pose proof (pow2_ge_0 (u1 - u3)). pose proof (pow2_ge_0 (v1 - v3)).
  pose proof (pow2_ge_0 (u2 - u3)). pose proof (pow2_ge_0 (v2 - v3)).
  assert (0 <= a * b * ((u1 - u2) ^ 2 + (v1 - v2) ^ 2))
    by (apply Rmult_le_pos; [apply Rmult_le_pos|]; lra).
  assert (0 <= a * c * ((u1 - u3) ^ 2 + (v1 - v3) ^ 2))
    by (apply Rmult_le_pos; [apply Rmult_le_pos|]; lra).
  assert (0 <= b * c * ((u2 - u3) ^ 2 + (v2 - v3) ^ 2))
    by (apply Rmult_le_pos; [apply Rmult_le_pos|]; lra).
  assert (a * (u1 ^ 2 + v1 ^ 2) <= a * B ^ 2) by (apply Rmult_le_compat_l; lra).
  assert (b * (u2 ^ 2 + v2 ^ 2) <= b * B ^ 2) by (apply Rmult_le_compat_l; lra).
  assert (c * (u3 ^ 2 + v3 ^ 2) <= c * B ^ 2) by (apply Rmult_le_compat_l; lra).
  replace (B ^ 2) with ((a + b + c) * B ^ 2) at 1 by (rewrite Hsum; ring).
  lra.
Qed.

Lemma bezier_weights (t : R) :
  0 <= t <= 1 ->
  0 <= (1 - t) ^ 2 /\ 0 <= 2 * (1 - t) * t /\ 0 <= t ^ 2
  /\ (1 - t) ^ 2 + 2 * (1 - t) * t + t ^ 2 = 1.
Proof.
  intros [H0 H1]. split; [apply pow2_ge_0|]. split; [nra|].
  split; [apply pow2_ge_0|ring].
Qed.

Lemma curve_parameter_range (i : nat) (n : Z) :
  (1 <= n)%Z -> (i <= Z.to_nat n)%nat -> 0 <= INR i / IZR n <= 1.
Proof.
  intros Hn Hi.
  assert (Hpos : 0 < IZR n) by (apply IZR_lt; lia).
  assert (Hnat : IZR n = INR (Z.to_nat n)) by (rewrite INR_IZR_INZ; f_equal; lia).
  pose proof (pos_INR i) as Hi0. apply le_INR in Hi. rewrite <- Hnat in Hi.
  split.
  - apply Rmult_le_pos; [exact Hi0|]. left. apply Rinv_0_lt_compat. exact Hpos.
  - apply (Rmult_le_reg_r (IZR n)); [exact Hpos|]. unfold Rdiv.
    rewrite Rmult_assoc, Rinv_l by lra. lra.
Qed.

Lemma bezier_in_disc (T1 C T2 : Point) (n : Z) (o : Point) (B : R) :
  (1 <= n)%Z ->
  distance o T1 <= B -> distance o C <= B -> distance o T2 <= B ->
  exists pts,
    BunchedScribble.bezier_curve_points T1 C T2 n = Ok pts
    /\ Forall (fun p => distance o p <= B) pts.
Proof.
  intros Hn H1 H2 H3.
  destruct (bezier_curve_points_nth T1 C T2 n Hn)
    as (pts & Hpts & Hlen & _ & Hnth).
  exists pts. split; [exact Hpts|].
  apply Forall_forall. intros p Hin.
  destruct (In_nth pts p (0, 0) Hin) as (i & Hi & <-).
  assert (Hi' : (i <= Z.to_nat n)%nat) by lia.
  rewrite (Hnth i Hi').
  destruct (bezier_weights _ (curve_parameter_range i n Hn Hi'))
    as (Ha & Hb & Hc & Hsum).
  unfold quadratic_bezier.
  set (t := INR i / IZR n) in *.
  replace ((1 - t) ^ 2 * fst T1 + 2 * (1 - t) * t * fst C + t ^ 2 * fst T2,
           (1 - t) ^ 2 * snd T1 + 2 * (1 - t) * t * snd C + t ^ 2 * snd T2)
    with ((1 - t) ^ 2 * fst T1 + (2 * (1 - t) * t) * fst C + t ^ 2 * fst T2,
          (1 - t) ^ 2 * snd T1 + (2 * (1 - t) * t) * snd C + t ^ 2 * snd T2)
    by (f_equal; ring).
  apply disc_convex; assumption.
Qed.

(** For a positive step count the curve stays in every disc that holds
    its two terminals and its control point. *)
Theorem bezier_curve_points_in_disc (T1 C T2 : Point) (n : Z)
    (o : Point) (B : R) :
  (1 <= n)%Z ->
  distance o T1 <= B -> distance o C <= B -> distance o T2 <= B ->
  exists pts,
    BunchedScribble.bezier_curve_points T1 C T2 n = Ok pts
    /\ length pts = S (Z.to_nat n)
    /\ Forall (fun p => distance o p <= B) pts.
Proof.
  intros Hn H1 H2 H3.
  destruct (bezier_in_disc T1 C T2 n o B Hn H1 H2 H3) as (pts & Hpts & Hin).
  destruct (bezier_curve_points_nth T1 C T2 n Hn) as (pts' & Hpts' & Hlen & _).
  exists pts. split; [exact Hpts|]. split; [congruence|exact Hin].
Qed.

Lemma bezier_curve_points_in_disc_witness :
  (1 <= 10)%Z
  /\ distance (0, 0) (10, 5) <= 25
  /\ distance (0, 0) (7, 20) <= 25
  /\ distance (0, 0) (2, 14) <= 25
  /\ exists pts,
       BunchedScribble.bezier_curve_points (10, 5) (7, 20) (2, 14) 10 = Ok pts
       /\ length pts = S (Z.to_nat 10)
       /\ Forall (fun p => distance (0, 0) p <= 25) pts.
Proof.
  assert (H1 : distance (0, 0) (10, 5) <= 25)
    by (apply sq_le_distance; cbn [fst snd]; lra).
  assert (H2 : distance (0, 0) (7, 20) <= 25)
    by (apply sq_le_distance; cbn [fst snd]; lra).
  assert (H3 : distance (0, 0) (2, 14) <= 25)
    by (apply sq_le_distance; cbn [fst snd]; lra).
  split; [lia|]. split; [exact H1|]. split; [exact H2|]. split; [exact H3|].
  apply (bezier_curve_points_in_disc (10, 5) (7, 20) (2, 14) 10 (0, 0) 25);
    [lia|exact H1|exact H2|exact H3].
Defined.

(** ** [_shorten_curve] *)

Module Shortened.

Import PrimFloat.

Local Open Scope float_scope.





End Shortened.

(** ** [LinearScribble.get_points] and the walk *)

Section LinearWalk.

Variable self : Scribble.
Variable initial_radius : R.
Variable max_length : R.








End LinearWalk.



(** ** What the curve generators' passes do, in full *)







(** ** Invariants of the walk and of the loops *)


Section PoolInvariant.

Variable self : Scribble.
Variable good_state : R -> R -> Prop.
Variable good_point : Point -> Prop.

Hypothesis step_keeps : forall angle radius,
  good_state angle radius ->
  good_point (fst (fst (LinearScribble._get_new_point self angle radius)))
  /\ good_state (snd (fst (LinearScribble._get_new_point self angle radius)))
                (snd (LinearScribble._get_new_point self angle radius)).


End PoolInvariant.

Section CurveLoopSafety.

Variable max_length : R.
Variable next : loop_state -> outcome (loop_state * list Point * R * bool).
Variable loop : nat -> loop_state -> outcome loop_state.
Variables inv post : loop_state -> Prop.

Hypothesis loop_unfold : forall fuel st,
  loop fuel st
  = if Rltb (st_length st) max_length then
      match fuel with
      | O => OutOfFuel
      | S fuel' =>
          '(st, new_points, curve_length, stop) <- next st ;;
          let st := add_curve st curve_length new_points in
          if stop then Ok st else loop fuel' st
      end
    else Ok st.

Hypothesis next_keeps : forall st,
  inv st -> st_length st < max_length ->
  exists st1 new_points curve_length stop,
    next st = Ok (st1, new_points, curve_length, stop)
    /\ if stop : bool
       then post (add_curve st1 curve_length new_points)
       else inv (add_curve st1 curve_length new_points).

Hypothesis inv_post : forall st, inv st -> max_length <= st_length st -> post st.


End CurveLoopSafety.



(** ** A bounded radius keeps the scribble within reach *)

Section WithinReach.

Variable self : Scribble.
Variable bound : R.

Hypothesis radius_stays : forall r,
  Rabs r <= bound -> Rabs (radius_modifier_fn self r) <= bound.







End WithinReach.



(** ** Step functions that stand still *)

Section Standstill.

Variable self : Scribble.
Variable initial_radius : R.
Variable max_length : R.

Hypothesis radius_fixed : radius_modifier_fn self initial_radius = initial_radius.
Hypothesis angle_fixed : angle_modifier_fn self 0 = 0.
Hypothesis budget : 0 < max_length.



End Standstill.



(** ** Where a scribble starts *)




